(** * localit: a namespacing and expiration layer over Web Storage

    Shallow embedding of [src/index.ts].  The module keeps two pieces of
    process-wide state, [DOMAIN] and [store]; every public operation derives
    a full key from the logical key and the domain and delegates to the
    selected [Storage].

    Host facilities the module calls ([Storage], [JSON], [Number], [Date],
    [console]) are modelled first, then the module itself.

    Conventions.
    - A string is a sequence of bytes, read as UTF-8 text.
    - A host number is [NaN], an infinity, or a decimal [m * 10^e]: the
      decimal that its shortest text writes, so that a finite number and
      its text determine each other.  Arithmetic is exact where the host
      rounds to binary64: sums agree with the host on the safe integers and
      may differ in the last digits elsewhere.  There is no negative zero.
    - The host clock is an explicit argument [now] (milliseconds since the
      epoch) of the operations that read it, and local time is UTC. *)

From Stdlib Require Import ZArith NArith Ascii DecimalString DecimalPos DecimalN DecimalFacts.
From stdpp Require Import gmap strings list fin_maps.

Local Open Scope Z_scope.

(** ** Text helpers *)

Module Text.

Definition quote : ascii := ascii_of_nat 34.
Definition backslash : ascii := ascii_of_nat 92.

Definition is_digit (c : ascii) : bool :=
  match c with
  | "0" | "1" | "2" | "3" | "4" | "5" | "6" | "7" | "8" | "9" => true
  | _ => false
  end%char.

(** The longest prefix of [s] whose characters satisfy [p], and the rest. *)
Fixpoint span (p : ascii → bool) (s : string) : string * string :=
  match s with
  | EmptyString => (EmptyString, EmptyString)
  | String c r =>
      if p c then let '(a, b) := span p r in (String c a, b)
      else (EmptyString, s)
  end.

Definition is_empty (s : string) : bool :=
  match s with EmptyString => true | String _ _ => false end.

(** [drop_prefix p s] is [Some r] when [s = p +:+ r]. *)
Fixpoint drop_prefix (p s : string) : option string :=
  match p, s with
  | EmptyString, _ => Some s
  | String a p', String b s' =>
      if Ascii.eqb a b then drop_prefix p' s' else None
  | String _ _, EmptyString => None
  end.

(** [String.prototype.includes]: [pat] occurs somewhere in [s]. *)
Fixpoint includes (pat s : string) : bool :=
  match drop_prefix pat s with
  | Some _ => true
  | None =>
      match s with
      | EmptyString => false
      | String _ r => includes pat r
      end
  end.

(** [pat] occurs in [s]: what [includes] decides. *)
Definition occurs (pat s : string) : Prop :=
  ∃ a b, s = a +:+ pat +:+ b.

(** [s.endsWith(suffix)]. *)
Fixpoint ends_with (suffix s : string) : bool :=
  String.eqb suffix s ||
  match s with
  | EmptyString => false
  | String _ r => ends_with suffix r
  end.

(** The last character, [s[s.length - 1]]; [None] stands for [undefined]. *)
Fixpoint last_char (s : string) : option ascii :=
  match s with
  | EmptyString => None
  | String c EmptyString => Some c
  | String _ r => last_char r
  end.

(** [s.replace(c, empty)] for a one-character pattern: the first
    occurrence of [c] is dropped. *)
Fixpoint remove_first (c : ascii) (s : string) : string :=
  match s with
  | EmptyString => EmptyString
  | String a r => if Ascii.eqb a c then r else String a (remove_first c r)
  end.

(** Every character of [s] satisfies [p]. *)
Fixpoint all (p : ascii → bool) (s : string) : bool :=
  match s with
  | EmptyString => true
  | String c r => p c && all p r
  end.

(** [s] starts with a character that satisfies [p]. *)
Definition head_is (p : ascii → bool) (s : string) : bool :=
  match s with
  | EmptyString => false
  | String c _ => p c
  end.

Fixpoint repeat_char (c : ascii) (n : nat) : string :=
  match n with
  | O => EmptyString
  | S n' => String c (repeat_char c n')
  end.

(** [xs.join(sep)]. *)
Fixpoint join (sep : string) (xs : list string) : string :=
  match xs with
  | [] => EmptyString
  | [x] => x
  | x :: rest => x +:+ sep +:+ join sep rest
  end.

(** Decimal digits of a natural number, and the value of a digit string. *)
Definition digits (n : N) : string := NilEmpty.string_of_uint (N.to_uint n).

Definition digits_value (s : string) : N :=
  match NilEmpty.uint_of_string s with
  | Some d => N.of_uint d
  | None => 0%N
  end.

End Text.

(** ** Host numbers *)

Inductive number :=
| NaN
| Infinity (negative : bool)
| Int (z : Z)        (* an integer of magnitude below 10^21 *)
| Dec (m e : Z).     (* any other finite number, m * 10^e with m not a multiple of 10 *)

Module Number.

(** Trailing zeros of the mantissa move into the exponent. *)
Fixpoint strip_zeros (fuel : nat) (m e : Z) : Z * Z :=
  match fuel with
  | O => (m, e)
  | S f =>
      if (m mod 10 =? 0) && negb (m =? 0)
      then strip_zeros f (m / 10) (e + 1)
      else (m, e)
  end.

(** The number [m * 10^e].  Magnitudes from [2^1024 - 2^970] on round to
    an infinity and magnitudes up to [2^-1075] round to zero, as in
    binary64. *)
Definition of_decimal (m e : Z) : number :=
  let '(m, e) := strip_zeros (Z.to_nat (Z.log2 (Z.abs m))) m e in
  if 0 <=? e then
    let z := m * 10 ^ e in
    if Z.abs z <? 10 ^ 21 then Int z
    else if 2 ^ 1024 - 2 ^ 970 <=? Z.abs z then Infinity (z <? 0)
    else Dec m e
  else
    if Z.abs m * 2 ^ 1075 <=? 10 ^ (- e) then Int 0 else Dec m e.

Definition decimal_of (n : number) : option (Z * Z) :=
  match n with
  | Int z => Some (z, 0)
  | Dec m e => Some (m, e)
  | NaN | Infinity _ => None
  end.

Definition isNaN (n : number) : bool :=
  match n with NaN => true | _ => false end.

(** [a + b] *)
Definition add (a b : number) : number :=
  match a, b with
  | NaN, _ | _, NaN => NaN
  | Infinity s, Infinity s' => if Bool.eqb s s' then Infinity s else NaN
  | Infinity s, _ | _, Infinity s => Infinity s
  | _, _ =>
      match decimal_of a, decimal_of b with
      | Some (m1, e1), Some (m2, e2) =>
          let e := Z.min e1 e2 in
          of_decimal (m1 * 10 ^ (e1 - e) + m2 * 10 ^ (e2 - e)) e
      | _, _ => NaN
      end
  end.

(** [ToIntegerOrInfinity] on a finite number: the fraction is dropped.
    [None] for [NaN] and the infinities. *)
Definition truncate (n : number) : option Z :=
  match n with
  | Int z => Some z
  | Dec m e => Some (if 0 <=? e then m * 10 ^ e else Z.quot m (10 ^ (- e)))
  | NaN | Infinity _ => None
  end.

Definition sign (z : Z) : string := if z <? 0 then "-" else EmptyString.

(** The digits [s] scaled by [10^e], laid out as [Number::toString] does
    for radix 10. *)
Definition layout (s : string) (e : Z) : string :=
  let k := Z.of_nat (String.length s) in
  let n := e + k in
  if (k <=? n) && (n <=? 21) then
    s +:+ Text.repeat_char "0" (Z.to_nat (n - k))
  else if (0 <? n) && (n <=? 21) then
    String.substring 0 (Z.to_nat n) s +:+ "." +:+
    String.substring (Z.to_nat n) (Z.to_nat (k - n)) s
  else if (-6 <? n) && (n <=? 0) then
    "0." +:+ Text.repeat_char "0" (Z.to_nat (- n)) +:+ s
  else
    let x := n - 1 in
    let ex := (if x <? 0 then "e-" else "e+") +:+ Text.digits (Z.abs_N x) in
    match s with
    | EmptyString => EmptyString
    | String d EmptyString => String d ex
    | String d r => String d ("." +:+ r +:+ ex)
    end.

(** [Number::toString], also [String(n)] *)
Definition to_string (n : number) : string :=
  match n with
  | NaN => "NaN"
  | Infinity neg => if neg then "-Infinity" else "Infinity"
  | Int z => sign z +:+ Text.digits (Z.abs_N z)
  | Dec m e => sign m +:+ layout (Text.digits (Z.abs_N m)) e
  end.

(** *** [Number(s)]: StringToNumber *)

Definition bytes (l : list nat) : string :=
  String.string_of_list_ascii (ascii_of_nat <$> l).

(** StrWhiteSpaceChar: white space and line terminators, in UTF-8. *)
Definition white_space : list string :=
  bytes <$>
    [ [9%nat]; [10%nat]; [11%nat]; [12%nat]; [13%nat]; [32%nat];
      [194; 160]%nat; [225; 154; 128]%nat;
      [226; 128; 128]%nat; [226; 128; 129]%nat; [226; 128; 130]%nat;
      [226; 128; 131]%nat; [226; 128; 132]%nat; [226; 128; 133]%nat;
      [226; 128; 134]%nat; [226; 128; 135]%nat; [226; 128; 136]%nat;
      [226; 128; 137]%nat; [226; 128; 138]%nat;
      [226; 128; 168]%nat; [226; 128; 169]%nat; [226; 128; 175]%nat;
      [226; 129; 159]%nat; [227; 128; 128]%nat; [239; 187; 191]%nat ].

Fixpoint first_prefix (ws : list string) (s : string) : option string :=
  match ws with
  | [] => None
  | w :: ws' =>
      match Text.drop_prefix w s with
      | Some r => Some r
      | None => first_prefix ws' s
      end
  end.

Fixpoint skip_white_space (fuel : nat) (s : string) : string :=
  match fuel with
  | O => s
  | S f =>
      match first_prefix white_space s with
      | Some r => skip_white_space f r
      | None => s
      end
  end.

Definition digit_value (radix : N) (c : ascii) : option N :=
  let n := N_of_ascii c in
  let v :=
    if (48 <=? n)%N && (n <=? 57)%N then Some (n - 48)%N
    else if (97 <=? n)%N && (n <=? 102)%N then Some (n - 87)%N
    else if (65 <=? n)%N && (n <=? 70)%N then Some (n - 55)%N
    else None in
  match v with
  | Some d => if (d <? radix)%N then Some d else None
  | None => None
  end.

Definition is_radix_digit (radix : N) (c : ascii) : bool :=
  match digit_value radix c with Some _ => true | None => false end.

Fixpoint radix_value (radix : N) (acc : N) (s : string) : N :=
  match s with
  | EmptyString => acc
  | String c r =>
      radix_value radix
        (acc * radix + match digit_value radix c with Some d => d | None => 0 end)%N r
  end.

(** NonDecimalIntegerLiteral: [0x], [0o] or [0b] and at least one digit. *)
Definition non_decimal (s : string) : option (number * string) :=
  match s with
  | String "0" (String p r) =>
      let radix :=
        if Ascii.eqb p "x" || Ascii.eqb p "X" then Some 16%N
        else if Ascii.eqb p "o" || Ascii.eqb p "O" then Some 8%N
        else if Ascii.eqb p "b" || Ascii.eqb p "B" then Some 2%N
        else None in
      match radix with
      | Some b =>
          let '(ds, rest) := Text.span (is_radix_digit b) r in
          if Text.is_empty ds then None
          else Some (of_decimal (Z.of_N (radix_value b 0 ds)) 0, rest)
      | None => None
      end
  | _ => None
  end.

(** An optional sign. *)
Definition signed (s : string) : bool * string :=
  match s with
  | String "-" r => (true, r)
  | String "+" r => (false, r)
  | _ => (false, s)
  end.

(** ExponentPart, when a well-formed one is there. *)
Definition exponent (s : string) : Z * string :=
  match s with
  | String c r =>
      if Ascii.eqb c "e" || Ascii.eqb c "E" then
        let '(neg, r1) := signed r in
        let '(ds, r2) := Text.span Text.is_digit r1 in
        if Text.is_empty ds then (0, s)
        else
          let x := Z.of_N (Text.digits_value ds) in
          (if neg then - x else x, r2)
      else (0, s)
  | EmptyString => (0, s)
  end.

(** StrUnsignedDecimalLiteral without the [Infinity] case. *)
Definition unsigned_decimal (neg : bool) (s : string) : option (number * string) :=
  let '(ip, r1) := Text.span Text.is_digit s in
  let '(fp, r2) :=
    match r1 with
    | String "." r => Text.span Text.is_digit r
    | _ => (EmptyString, r1)
    end in
  if Text.is_empty ip && Text.is_empty fp then None
  else
    let '(x, r3) := exponent r2 in
    let m := Z.of_N (Text.digits_value (ip +:+ fp)) in
    Some (of_decimal (if neg then - m else m) (x - Z.of_nat (String.length fp)), r3).

Definition numeric_literal (s : string) : option (number * string) :=
  match non_decimal s with
  | Some r => Some r
  | None =>
      let '(neg, u) := signed s in
      match Text.drop_prefix "Infinity" u with
      | Some rest => Some (Infinity neg, rest)
      | None => unsigned_decimal neg u
      end
  end.

(** [Number(s)] for a string [s]. *)
Definition of_string (s : string) : number :=
  let t := skip_white_space (String.length s) s in
  if Text.is_empty t then Int 0
  else
    match numeric_literal t with
    | Some (n, rest) =>
        if Text.is_empty (skip_white_space (String.length rest) rest) then n else NaN
    | None => NaN
    end.

End Number.

(** ** Values and JSON *)

(** The values a caller can hand to [set] and that [get] can return:
    [null], booleans, numbers, strings, arrays and plain objects.  An
    object is its list of own properties in enumeration order, keys
    distinct.  ([undefined], functions, symbols and bigints are left out.) *)
#[warnings="-register-all"]
Inductive value :=
| VNull
| VBool (b : bool)
| VNum (n : number)
| VStr (s : string)
| VArr (items : list value)
| VObj (fields : list (string * value)).

Module JSON.

(** *** [JSON.stringify] *)

Definition hex_digit (n : N) : ascii :=
  ascii_of_N (if (n <? 10)%N then 48 + n else 87 + n)%N.

(** QuoteJSONString, one character at a time. *)
Definition escape (c : ascii) : string :=
  let n := N_of_ascii c in
  if Ascii.eqb c Text.quote then String Text.backslash (String Text.quote EmptyString)
  else if Ascii.eqb c Text.backslash then String Text.backslash (String Text.backslash EmptyString)
  else if (n =? 8)%N then String Text.backslash "b"
  else if (n =? 9)%N then String Text.backslash "t"
  else if (n =? 10)%N then String Text.backslash "n"
  else if (n =? 12)%N then String Text.backslash "f"
  else if (n =? 13)%N then String Text.backslash "r"
  else if (n <? 32)%N then
    String Text.backslash
      (String "u" (String "0" (String "0"
        (String (hex_digit (n / 16)) (String (hex_digit (n mod 16)) EmptyString)))))
  else String c EmptyString.

Fixpoint escape_all (s : string) : string :=
  match s with
  | EmptyString => EmptyString
  | String c r => escape c +:+ escape_all r
  end.

Definition quote (s : string) : string :=
  String Text.quote (escape_all s +:+ String Text.quote EmptyString).

Definition stringify_number (n : number) : string :=
  match n with
  | Int _ | Dec _ _ => Number.to_string n
  | NaN | Infinity _ => "null"
  end.

Fixpoint stringify (v : value) : string :=
  match v with
  | VNull => "null"
  | VBool b => if b then "true" else "false"
  | VNum n => stringify_number n
  | VStr s => quote s
  | VArr items => "[" +:+ Text.join "," (map stringify items) +:+ "]"
  | VObj fields =>
      "{" +:+
      Text.join "," (map (fun kv => quote (fst kv) +:+ ":" +:+ stringify (snd kv)) fields)
      +:+ "}"
  end.

(** *** [JSON.parse] *)

Definition is_ws (c : ascii) : bool :=
  match c with
  | " " | "009" | "010" | "013" => true
  | _ => false
  end%char.

Fixpoint skip_ws (s : string) : string :=
  match s with
  | EmptyString => s
  | String c r => if is_ws c then skip_ws r else s
  end.

(** UTF-8 (generalised to lone surrogates) of a code point. *)
Definition utf8 (cp : N) : string :=
  let b (n : N) := ascii_of_N n in
  (if cp <? 128 then String (b cp) EmptyString
   else if cp <? 2048 then
     String (b (192 + cp / 64)) (String (b (128 + cp mod 64)) EmptyString)
   else if cp <? 65536 then
     String (b (224 + cp / 4096))
       (String (b (128 + (cp / 64) mod 64)) (String (b (128 + cp mod 64)) EmptyString))
   else
     String (b (240 + cp / 262144))
       (String (b (128 + (cp / 4096) mod 64))
         (String (b (128 + (cp / 64) mod 64)) (String (b (128 + cp mod 64)) EmptyString))))%N.

Definition hex4 (a b c d : ascii) : option N :=
  match Number.digit_value 16 a, Number.digit_value 16 b,
        Number.digit_value 16 c, Number.digit_value 16 d with
  | Some x, Some y, Some z, Some w => Some (((x * 16 + y) * 16 + z) * 16 + w)%N
  | _, _, _, _ => None
  end.

Definition simple_escape (e : ascii) : option ascii :=
  if Ascii.eqb e Text.quote then Some Text.quote
  else if Ascii.eqb e Text.backslash then Some Text.backslash
  else if Ascii.eqb e "/" then Some "/"%char
  else if Ascii.eqb e "b" then Some (ascii_of_nat 8)
  else if Ascii.eqb e "f" then Some (ascii_of_nat 12)
  else if Ascii.eqb e "n" then Some (ascii_of_nat 10)
  else if Ascii.eqb e "r" then Some (ascii_of_nat 13)
  else if Ascii.eqb e "t" then Some (ascii_of_nat 9)
  else None.

Definition is_high_surrogate (u : N) : bool := (55296 <=? u)%N && (u <? 56320)%N.
Definition is_low_surrogate (u : N) : bool := (56320 <=? u)%N && (u <? 57344)%N.

(** A low surrogate escape at the head of [s], if any. *)
Definition low_surrogate (s : string) : option N :=
  match s with
  | String b (String u (String h1 (String h2 (String h3 (String h4 _))))) =>
      if Ascii.eqb b Text.backslash && Ascii.eqb u "u" then
        match hex4 h1 h2 h3 h4 with
        | Some lo => if is_low_surrogate lo then Some lo else None
        | None => None
        end
      else None
  | _ => None
  end.

Definition prepend (p : string) (r : option (string * string)) : option (string * string) :=
  match r with
  | Some (t, rest) => Some (p +:+ t, rest)
  | None => None
  end.

(** The characters of a string literal after its opening quote, up to
    and including the closing quote. *)
Fixpoint string_body (s : string) : option (string * string) :=
  match s with
  | EmptyString => None
  | String c r =>
      if Ascii.eqb c Text.quote then Some (EmptyString, r)
      else if Ascii.eqb c Text.backslash then
        match r with
        | EmptyString => None
        | String e r1 =>
            if Ascii.eqb e "u" then
              match r1 with
              | String h1 (String h2 (String h3 (String h4 r2))) =>
                  match hex4 h1 h2 h3 h4 with
                  | None => None
                  | Some hi =>
                      match (if is_high_surrogate hi then low_surrogate r2 else None), r2 with
                      | Some lo, String _ (String _ (String _ (String _ (String _ (String _ r3))))) =>
                          prepend (utf8 (65536 + (hi - 55296) * 1024 + (lo - 56320))%N)
                            (string_body r3)
                      | _, _ => prepend (utf8 hi) (string_body r2)
                      end
                  end
              | _ => None
              end
            else
              match simple_escape e with
              | Some x => prepend (String x EmptyString) (string_body r1)
              | None => None
              end
        end
      else if (N_of_ascii c <? 32)%N then None
      else prepend (String c EmptyString) (string_body r)
  end.

(** An integer part of several digits that starts with a zero. *)
Definition leading_zero (ip : string) : bool :=
  match ip with
  | String "0" (String _ _) => true
  | _ => false
  end.

(** The fraction of a number token: a dot and one digit or more, or
    nothing. *)
Definition fraction (s : string) : option (string * string) :=
  match s with
  | String "." r =>
      let '(fp, rest) := Text.span Text.is_digit r in
      if Text.is_empty fp then None else Some (fp, rest)
  | _ => Some (EmptyString, s)
  end.

(** The exponent of a number token: [e] or [E], an optional sign and one
    digit or more, or nothing. *)
Definition exponent (s : string) : option (Z * string) :=
  match s with
  | String c r =>
      if Ascii.eqb c "e" || Ascii.eqb c "E" then
        let '(eneg, r1) := Number.signed r in
        let '(ds, rest) := Text.span Text.is_digit r1 in
        if Text.is_empty ds then None
        else
          let x := Z.of_N (Text.digits_value ds) in
          Some (if eneg then - x else x, rest)
      else Some (0, s)
  | EmptyString => Some (0, s)
  end.

(** A number token after its sign: digits, an optional fraction and an
    optional exponent. *)
Definition unsigned_number (neg : bool) (s1 : string) : option (value * string) :=
  let '(ip, s2) := Text.span Text.is_digit s1 in
  if Text.is_empty ip || leading_zero ip then None
  else
    match fraction s2 with
    | None => None
    | Some (fp, s3) =>
        match exponent s3 with
        | None => None
        | Some (x, rest) =>
            let m := Z.of_N (Text.digits_value (ip +:+ fp)) in
            Some (VNum (Number.of_decimal (if neg then - m else m)
                          (x - Z.of_nat (String.length fp))), rest)
        end
    end.

Definition number_token (s : string) : option (value * string) :=
  match s with
  | String "-" r => unsigned_number true r
  | _ => unsigned_number false s
  end.

Definition literal (s : string) : option (value * string) :=
  match Text.drop_prefix "null" s with
  | Some r => Some (VNull, r)
  | None =>
      match Text.drop_prefix "true" s with
      | Some r => Some (VBool true, r)
      | None =>
          match Text.drop_prefix "false" s with
          | Some r => Some (VBool false, r)
          | None => number_token s
          end
      end
  end.

(** Defining a property: an existing key keeps its place and takes the
    new value, a new key goes last. *)
Fixpoint define (k : string) (v : value) (fields : list (string * value))
  : list (string * value) :=
  match fields with
  | [] => [(k, v)]
  | (k', v') :: r =>
      if String.eqb k' k then (k', v) :: r else (k', v') :: define k v r
  end.

(** Recursive descent; [fuel] bounds the nesting of calls, and every
    call expects its input to start at a token. *)
Fixpoint value_ (fuel : nat) (s : string) {struct fuel} : option (value * string) :=
  match fuel with
  | O => None
  | S n =>
      match s with
      | EmptyString => None
      | String c r =>
          if Ascii.eqb c "[" then
            match skip_ws r with
            | String c' r' =>
                if Ascii.eqb c' "]" then Some (VArr [], r')
                else
                  match elements n (String c' r') with
                  | Some (items, rest) => Some (VArr items, rest)
                  | None => None
                  end
            | EmptyString => None
            end
          else if Ascii.eqb c "{" then
            match skip_ws r with
            | String c' r' =>
                if Ascii.eqb c' "}" then Some (VObj [], r')
                else
                  match members n [] (String c' r') with
                  | Some (fields, rest) => Some (VObj fields, rest)
                  | None => None
                  end
            | EmptyString => None
            end
          else if Ascii.eqb c Text.quote then
            match string_body r with
            | Some (t, rest) => Some (VStr t, rest)
            | None => None
            end
          else literal s
      end
  end
with elements (fuel : nat) (s : string) {struct fuel} : option (list value * string) :=
  match fuel with
  | O => None
  | S n =>
      match value_ n s with
      | None => None
      | Some (v, r) =>
          match skip_ws r with
          | EmptyString => None
          | String c r' =>
              if Ascii.eqb c "," then
                match elements n (skip_ws r') with
                | Some (items, rest) => Some (v :: items, rest)
                | None => None
                end
              else if Ascii.eqb c "]" then Some ([v], r')
              else None
          end
      end
  end
with members (fuel : nat) (acc : list (string * value)) (s : string) {struct fuel}
  : option (list (string * value) * string) :=
  match fuel with
  | O => None
  | S n =>
      match s with
      | EmptyString => None
      | String q r =>
          if negb (Ascii.eqb q Text.quote) then None
          else
            match string_body r with
            | None => None
            | Some (k, r1) =>
                match skip_ws r1 with
                | EmptyString => None
                | String c r2 =>
                    if negb (Ascii.eqb c ":") then None
                    else
                      match value_ n (skip_ws r2) with
                      | None => None
                      | Some (v, r3) =>
                          match skip_ws r3 with
                          | EmptyString => None
                          | String c' r4 =>
                              if Ascii.eqb c' "," then
                                members n (define k v acc) (skip_ws r4)
                              else if Ascii.eqb c' "}" then Some (define k v acc, r4)
                              else None
                          end
                      end
                end
            end
      end
  end.

(** [JSON.parse(s)]; [None] is a thrown [SyntaxError]. *)
Definition parse (s : string) : option value :=
  match value_ (2 * String.length s + 2) (skip_ws s) with
  | Some (v, rest) => if Text.is_empty (skip_ws rest) then Some v else None
  | None => None
  end.

End JSON.

(** [String(v)], the conversion [Storage.setItem] and [new Date] apply to
    a value that is not a string. *)
Fixpoint ToString (v : value) : string :=
  match v with
  | VNull => "null"
  | VBool b => if b then "true" else "false"
  | VNum n => Number.to_string n
  | VStr s => s
  | VArr items =>
      Text.join ","
        (map (fun x => match x with VNull => EmptyString | _ => ToString x end) items)
  | VObj _ => "[object Object]"
  end.

(** [typeof v === "object"] *)
Definition is_object (v : value) : bool :=
  match v with
  | VNull | VArr _ | VObj _ => true
  | VBool _ | VNum _ | VStr _ => false
  end.

(** ** Dates *)

Module Date.

Definition msPerSecond : Z := 1000.
Definition msPerMinute : Z := 60000.
Definition msPerHour : Z := 3600000.
Definition msPerDay : Z := 86400000.

Definition getHours (t : Z) : Z := (t / msPerHour) mod 24.
Definition getMinutes (t : Z) : Z := (t / msPerMinute) mod 60.
Definition getSeconds (t : Z) : Z := (t / msPerSecond) mod 60.

(** Day of the month, from 1, in the proleptic Gregorian calendar. *)
Definition getDate (t : Z) : Z :=
  let z := t / msPerDay + 719468 in
  let doe := z mod 146097 in
  let yoe := (doe - doe / 1460 + doe / 36524 - doe / 146096) / 365 in
  let doy := doe - (365 * yoe + yoe / 4 - yoe / 100) in
  let mp := (5 * doy + 2) / 153 in
  doy - (153 * mp + 2) / 5 + 1.

(** [TimeClip]: a time value is an integer of magnitude at most
    8.64e15, anything else is [NaN] (an invalid date). *)
Definition TimeClip (n : number) : number :=
  match Number.truncate n with
  | Some t => if Z.abs t <=? 8640000000000000 then Int t else NaN
  | None => NaN
  end.

(** A date at time [t] whose field of weight [unit], now [field], is set
    to [arg]: the new time value, which the setter returns. *)
Definition set_field (unit field t : Z) (arg : number) : number :=
  match Number.truncate arg with
  | Some i => TimeClip (Int (t + (i - field) * unit))
  | None => NaN
  end.

Definition setHours (t : Z) (hour : number) : number :=
  set_field msPerHour (getHours t) t hour.
Definition setDate (t : Z) (date : number) : number :=
  set_field msPerDay (getDate t) t date.
Definition setMinutes (t : Z) (min : number) : number :=
  set_field msPerMinute (getMinutes t) t min.
Definition setSeconds (t : Z) (sec : number) : number :=
  set_field msPerSecond (getSeconds t) t sec.

(** [new Date(v)]: the time value, [None] for an invalid date.  A string
    (or an array or object, through its string form) goes to [Date.parse],
    whose accepted formats are the host's: [parse_date]. *)
Definition of_value (parse_date : string → option Z) (v : value) : option Z :=
  match v with
  | VNull => Some 0
  | VBool b => Some (if b then 1 else 0)
  | VNum n => match TimeClip n with Int t => Some t | _ => None end
  | VStr s => parse_date s
  | VArr _ | VObj _ => parse_date (ToString v)
  end.

End Date.

(** ** Storage and the module state *)

Inductive storage := LocalStorage | SessionStorage.

Inductive message :=
| console_warn (text : string)
| console_error (text : string).

(** [DOMAIN] and [store] are the module's two variables; the contents of
    the two host [Storage] objects and what was printed on the console
    complete the state. *)
Record state := State {
  DOMAIN : string;
  store : storage;
  localStorage : gmap string string;
  sessionStorage : gmap string string;
  console : list message;
}.

(** An exception, or a normal completion. *)
Inductive completion (A : Type) :=
| Return (a : A)
| Throw.
Arguments Return {A} a.
Arguments Throw {A}.

Definition initial : state :=
  {| DOMAIN := EmptyString; store := LocalStorage;
     localStorage := ∅; sessionStorage := ∅; console := [] |}.

Definition EXPIRE : string := "_expiration_date".

(** The entries of the [Storage] object [store] refers to. *)
Definition items (st : state) : gmap string string :=
  match store st with
  | LocalStorage => localStorage st
  | SessionStorage => sessionStorage st
  end.

Definition with_items (f : gmap string string → gmap string string) (st : state) : state :=
  match store st with
  | LocalStorage =>
      {| DOMAIN := DOMAIN st; store := store st;
         localStorage := f (localStorage st); sessionStorage := sessionStorage st;
         console := console st |}
  | SessionStorage =>
      {| DOMAIN := DOMAIN st; store := store st;
         localStorage := localStorage st; sessionStorage := f (sessionStorage st);
         console := console st |}
  end.

Definition log (m : message) (st : state) : state :=
  {| DOMAIN := DOMAIN st; store := store st;
     localStorage := localStorage st; sessionStorage := sessionStorage st;
     console := console st ++ [m] |}.

(** The names of the members of [Storage.prototype] and of
    [Object.prototype], the prototype chain of a [Storage] object, as the
    Web Storage interface and ECMAScript (with its Annex B, which browsers
    implement) define them. *)
Definition prototype_names : list string :=
  [ "length"; "key"; "getItem"; "setItem"; "removeItem"; "clear"; "constructor";
    "__defineGetter__"; "__defineSetter__"; "hasOwnProperty"; "__lookupGetter__";
    "__lookupSetter__"; "isPrototypeOf"; "propertyIsEnumerable"; "toString";
    "valueOf"; "__proto__"; "toLocaleString" ].

(** A stored key is a property of the [Storage] object, and so a key that
    [Object.keys] lists, unless a member of the prototype chain has its
    name. *)
Definition enumerated (k : string) : bool :=
  negb (existsb (String.eqb k) prototype_names).

(** [store.getItem], [store.setItem], [store.removeItem], [store.clear]
    and [Object.keys(store)].  The methods reach every stored key;
    [Object.keys] lists the stored keys that are properties of the object. *)
Definition getItem (k : string) (st : state) : option string := items st !! k.
Definition setItem (k v : string) (st : state) : state := with_items (insert k v) st.
Definition removeItem (k : string) (st : state) : state := with_items (delete k) st.
Definition clear (st : state) : state := with_items (fun _ => ∅) st.
Definition keys (st : state) : list string :=
  List.filter enumerated (map_to_list (items st)).*1.

(** [JSON.parse] applied to the result of [getItem]: an absent item is
    [null], which is parsed as the text [null]. *)
Definition item_text (o : option string) : string :=
  match o with
  | Some s => s
  | None => "null"
  end.

(** ** The module *)

Record LocalitConfig := {
  domain : option string;
  type : option string;
}.

Definition getFullKey (key : string) (st : state) : string :=
  DOMAIN st +:+ "_" +:+ key.

Definition getExpirationKey (key : string) (st : state) : string :=
  getFullKey key st +:+ EXPIRE.

Definition allowedFormats : list ascii := ["h"; "d"; "m"; "s"]%char.

(** [timeFormats[timeKey](time)] on a date created at [now] *)
Definition timeFormats (timeKey : ascii) (now : Z) (time : number) : number :=
  if Ascii.eqb timeKey "h" then
    Date.setHours now (Number.add (Int (Date.getHours now)) time)
  else if Ascii.eqb timeKey "d" then
    Date.setDate now (Number.add (Int (Date.getDate now)) time)
  else if Ascii.eqb timeKey "m" then
    Date.setMinutes now (Number.add (Int (Date.getMinutes now)) time)
  else
    Date.setSeconds now (Number.add (Int (Date.getSeconds now)) time).

Definition expiration_warning : string :=
  "Localit: provide a valid expiration time format (e.g. '20h', '160s', '15d'). Your expiration date hasn't been saved.".

Definition key_error : string := "Localit: provide a key to store the value".

(** The length and the last character are those of the byte string; the
    test below comes out the same as on UTF-16 code units, since it passes
    only when the last character is one of four ASCII letters. *)
Definition setExpiration (key expirationTime : string) (now : Z) (st : state) : state :=
  let timeKey := Text.last_char expirationTime in
  let time :=
    Number.of_string
      match timeKey with
      | Some c => Text.remove_first c expirationTime
      | None => expirationTime
      end in
  if (String.length expirationTime <? 2)%nat
     || negb (existsb (fun char => bool_decide (timeKey = Some char)) allowedFormats)
     || Number.isNaN time
  then log (console_warn expiration_warning) st
  else
    match timeKey with
    | Some c =>
        setItem (getExpirationKey key st)
          (JSON.stringify (VNum (timeFormats c now time))) st
    | None => st
    end.

Definition hasExpirationDate (key : string) (st : state) : bool :=
  bool_decide (getItem (getExpirationKey key st) st ≠ None).

Definition remove (key : string) (st : state) : state :=
  removeItem (getExpirationKey key st) (removeItem (getFullKey key st) st).

Definition setDomain (domain : string) (st : state) : state :=
  {| DOMAIN := domain; store := store st;
     localStorage := localStorage st; sessionStorage := sessionStorage st;
     console := console st |}.

Definition config (options : LocalitConfig) (st : state) : state :=
  {| DOMAIN := match domain options with Some d => d | None => EmptyString end;
     store :=
       match type options with
       | None => LocalStorage
       | Some t => if String.eqb t "localStorage" then LocalStorage else SessionStorage
       end;
     localStorage := localStorage st; sessionStorage := sessionStorage st;
     console := console st |}.

(** What [set] hands to [setItem] and [setItem] turns into a string: the
    JSON text of an object, the string form of anything else. *)
Definition stored_text (v : value) : string :=
  if is_object v then JSON.stringify v else ToString v.

Definition set (key : string) (v : value) (expirationTime : option string)
    (now : Z) (st : state) : state :=
  if Text.is_empty key then log (console_error key_error) st
  else
    let st := setItem (getFullKey key st) (stored_text v) st in
    match expirationTime with
    | Some e => if Text.is_empty e then st else setExpiration key e now st
    | None => st
    end.

Definition clearDomain (domain : option string) (st : state) : state :=
  let domain := match domain with Some d => d | None => DOMAIN st end in
  foldl (fun st key => if Text.includes (domain +:+ "_") key then removeItem key st else st)
    st (keys st).

Definition bust (st : state) : state := clear st.

Section Host.

(** [Date.parse] of the host, [None] for [NaN]. *)
Variable Date_parse : string → option Z.

Definition hasExpired (key : string) (now : Z) (st : state) : completion bool :=
  match JSON.parse (item_text (getItem (getExpirationKey key st) st)) with
  | None => Throw
  | Some expirationDate =>
      Return
        match Date.of_value Date_parse expirationDate with
        | Some t => t <? now
        | None => false
        end
  end.

(** The condition of the [if] in [get]:
    [hasExpirationDate(key) && hasExpired(key)]. *)
Definition expired (key : string) (now : Z) (st : state) : completion bool :=
  if hasExpirationDate key st then hasExpired key now st else Return false.

Definition get (key : string) (now : Z) (st : state) : completion value * state :=
  match expired key now st with
  | Throw => (Throw, st)
  | Return true => (Return VNull, remove key st)
  | Return false =>
      let item := getItem (getFullKey key st) st in
      match JSON.parse (item_text item) with
      | Some v => (Return v, st)
      | None =>
          (Return match item with Some s => VStr s | None => VNull end, st)
      end
  end.

Definition getAndRemove (key : string) (now : Z) (st : state) : completion value * state :=
  match get key now st with
  | (Return res, st') => (Return res, remove key st')
  | (Throw, st') => (Throw, st')
  end.

(** *** Sequences of calls *)

Inductive call :=
| Config (options : LocalitConfig)
| Set_ (key : string) (v : value) (expirationTime : option string)
| Get (key : string)
| Remove (key : string)
| GetAndRemove (key : string)
| SetDomain (domain : string)
| ClearDomain (domain : option string)
| Bust.

(** One call made at time [now]. *)
Definition exec (now : Z) (c : call) (st : state) : state :=
  match c with
  | Config o => config o st
  | Set_ k v e => set k v e now st
  | Get k => (get k now st).2
  | Remove k => remove k st
  | GetAndRemove k => (getAndRemove k now st).2
  | SetDomain d => setDomain d st
  | ClearDomain d => clearDomain d st
  | Bust => bust st
  end.

Fixpoint run (calls : list (Z * call)) (st : state) : state :=
  match calls with
  | [] => st
  | (now, c) :: rest => run rest (exec now c st)
  end.

(** A sequence of calls, started in [st], in which no [set] is given a
    key whose full key ends with the expiration suffix. *)
Fixpoint plain_keys (calls : list (Z * call)) (st : state) : Prop :=
  match calls with
  | [] => True
  | (now, c) :: rest =>
      match c with
      | Set_ key _ _ => Text.ends_with EXPIRE (getFullKey key st) = false
      | _ => True
      end
      ∧ plain_keys rest (exec now c st)
  end.

End Host.

(** ** Values and their expiration entries *)

(** In the entries [m], every expiration key comes with the key it is the
    expiration of, and that key is not itself an expiration key. *)
Definition paired (m : gmap string string) : Prop :=
  ∀ k, is_Some (m !! (k +:+ EXPIRE)) →
       is_Some (m !! k) ∧ Text.ends_with EXPIRE k = false.

Definition all_paired (st : state) : Prop :=
  paired (localStorage st) ∧ paired (sessionStorage st).

(** ** Keys without a past expiration *)

(** At the time [now] the key has no expiration that has passed: it has
    no expiration entry, or the entry is JSON text and the date made of
    what it holds is no instant before [now] ([parse_date] is the host's
    [Date.parse]). *)
Definition no_past_expiration (parse_date : string → option Z)
    (key : string) (now : Z) (st : state) : Prop :=
  match getItem (getExpirationKey key st) st with
  | None => True
  | Some text =>
      ∃ v, JSON.parse text = Some v
           ∧ ∀ t, Date.of_value parse_date v = Some t → now ≤ t
  end.

(** ** Values that JSON carries exactly *)

(** The finite numbers in the form [Number.of_decimal] gives them: an
    integer of magnitude below [10^21], or a mantissa that is no multiple
    of ten with an exponent that leaves a fraction, or a magnitude from
    [10^21] up to the largest finite one. *)
Definition canonical (n : number) : bool :=
  match n with
  | Int z => Z.abs z <? 10 ^ 21
  | Dec m e =>
      negb (m mod 10 =? 0)
      && (if 0 <=? e then
            (10 ^ 21 <=? Z.abs (m * 10 ^ e)) && (Z.abs (m * 10 ^ e) <? 2 ^ 1024 - 2 ^ 970)
          else 10 ^ (- e) <? Z.abs m * 2 ^ 1075)
  | NaN | Infinity _ => false
  end.

(** The JSON-serializable values: [null], booleans, strings, finite
    numbers, and arrays and objects (with distinct keys) of such values. *)
Fixpoint serializable (v : value) : bool :=
  match v with
  | VNull | VBool _ | VStr _ => true
  | VNum n => canonical n
  | VArr items => forallb serializable items
  | VObj fields =>
      bool_decide (NoDup (map fst fields))
      && forallb (fun kv => serializable (snd kv)) fields
  end.

(** A string whose own text is JSON text: [get] hands back what the text
    parses to, not the string. *)
Definition json_text (v : value) : bool :=
  match v with
  | VStr s => match JSON.parse s with Some _ => true | None => false end
  | _ => false
  end.

(** ** Expiration formats *)

(** The units of [timeFormats]. *)
Definition is_unit (c : ascii) : bool := existsb (Ascii.eqb c) allowedFormats.

(** The grammar the specification gives for an expiration format: one or
    more digits, then one unit character. *)
Fixpoint digits_then_unit (s : string) : bool :=
  match s with
  | EmptyString => false
  | String d (String u EmptyString) => Text.is_digit d && is_unit u
  | String d r => Text.is_digit d && digits_then_unit r
  end.

(** The formats [setExpiration] lets through: two characters or more, the
    last one a unit, and the text without the first occurrence of that
    character converting to a number. *)
Definition valid_format (expirationTime : string) : Prop :=
  (2 ≤ String.length expirationTime)%nat
  ∧ ∃ timeKey,
      Text.last_char expirationTime = Some timeKey
      ∧ is_unit timeKey = true
      ∧ Number.of_string (Text.remove_first timeKey expirationTime) ≠ NaN.

(** ** Notions for reading a JSON text back *)

(** What may follow a value inside a text: nothing, a comma or a closing
    bracket. *)
Definition delimited (rest : string) : bool :=
  match rest with
  | EmptyString => true
  | String c _ => Ascii.eqb c "," || Ascii.eqb c "]" || Ascii.eqb c "}"
  end.

(** A character that starts a value: not white space and not a closing
    bracket. *)
Definition opens_value (c : ascii) : bool :=
  negb (JSON.is_ws c) && negb (Ascii.eqb c "]") && negb (Ascii.eqb c "}").

(** [v] is parsed back from its JSON text, whatever follows the text. *)
Definition parses_back (v : value) : Prop :=
  serializable v = true →
  ∀ fuel rest,
    (2 * String.length (JSON.stringify v) ≤ fuel)%nat →
    delimited rest = true →
    JSON.value_ fuel (JSON.stringify v +:+ rest) = Some (v, rest).

(** ** Sample data *)

(** A host whose [Date.parse] accepts no text. *)
Definition Date_parse_none : string → option Z := fun _ => None.

Definition sample_now : Z := 1700000000123.

(** The object of the module's own test. *)
Definition simpleObject : value :=
  VObj
    [ ("one", VNum (Int 1));
      ("two", VStr "two");
      ("three", VBool false);
      ("css", VArr [VStr "display"; VStr "font-size"]);
      ("html", VObj [("div", VBool true); ("span", VBool false)]) ].

(** That object beside numbers with a fraction or an exponent. *)
Definition priced : value :=
  VObj
    [ ("item", simpleObject);
      ("price", VNum (Dec 1999 (-2)));
      ("sizes", VArr [VNum (Dec 15 (-1)); VNum (Int 0); VNum (Dec (-25) (-8)); VNum (Dec 1 21)]) ].

(** The state of that test: [config({ domain: "object_tests" })] then [bust()]. *)
Definition object_tests : state :=
  bust (config {| domain := Some "object_tests"; type := None |} initial).

(** A value stored for one second, and one stored without expiration. *)
Definition one_second : state :=
  set "raw" (VStr "not json") None sample_now
    (set "k" (VStr "abc") (Some "1s") sample_now initial).

(** Entries under two domains, written while the domain was [books], then
    the domain reset to the default. *)
Definition two_domains : state :=
  setDomain EmptyString
    (set "title" (VStr "x") (Some "2h") sample_now
       (setDomain "books" (set "t" (VNum (Int 7)) (Some "1d") sample_now initial))).

(** With the default domain, a value stored for the key [_proto__]: its
    full key is [__proto__]. *)
Definition proto_key : state := set "_proto__" (VStr "v") None sample_now initial.

(** An entry written to [sessionStorage], then the configuration reset to
    its defaults. *)
Definition written_elsewhere : state :=
  config {| domain := None; type := None |}
    (set "k" (VStr "v") (Some "1d") sample_now
       (config {| domain := Some "books"; type := Some "sessionStorage" |} initial)).

(** A session of calls with plain keys. *)
Definition session : list (Z * call) :=
  [ (sample_now, Config {| domain := Some "books"; type := Some "sessionStorage" |});
    (sample_now, Set_ "title" simpleObject (Some "1s"));
    (sample_now, Set_ "author" (VStr "x") (Some "oops"));
    (sample_now + 500, Get "title");
    (sample_now + 2000, Get "title");
    (sample_now + 2000, SetDomain "movies");
    (sample_now + 2000, Set_ "title" (VNum (Int 0)) (Some "3d"));
    (sample_now + 3000, GetAndRemove "title");
    (sample_now + 3000, ClearDomain (Some "books"));
    (sample_now + 4000, Remove "author") ].

(** ** Notions for the further properties *)

(** The entries of the [Storage] object [store] does not refer to. *)
Definition other_items (st : state) : gmap string string :=
  match store st with
  | LocalStorage => sessionStorage st
  | SessionStorage => localStorage st
  end.



(** A domain in which no underscore occurs. *)
Definition underscore_free (d : string) : bool := negb (Text.includes "_" d).

(** What [get] returns for a stored text that has not expired: the value
    the text parses to, and the text itself when it is not JSON. *)
Definition read_back (raw : string) : value :=
  match JSON.parse raw with
  | Some v => v
  | None => VStr raw
  end.

(** A state with the same contents and another domain: what a call of
    [setDomain] in between leaves. *)
Definition sample_books : state :=
  set "title" (VStr "x") (Some "2h") sample_now (setDomain "books" initial).

(** * Properties *)

(** Case analysis on a character known to be one of a few, [tac] closing
    each case. *)
Tactic Notation "each_case" hyp(H) tactic3(tac) :=
  repeat (apply elem_of_cons in H as [->|H]; [tac|]);
  by apply elem_of_nil in H.

(** ** Facts about text *)

Module TextFacts.
Import Text.

Lemma app_cons c s t : String c s +:+ t = String c (s +:+ t).
Proof. reflexivity. Qed.

Lemma app_nil_l s : EmptyString +:+ s = s.
Proof. reflexivity. Qed.

Lemma app_nil_r s : s +:+ EmptyString = s.
Proof. induction s as [|c s IH]; [done|]. by rewrite app_cons, IH. Qed.

Lemma app_assoc a b c : (a +:+ b) +:+ c = a +:+ (b +:+ c).
Proof. induction a as [|x a IH]; [done|]. by rewrite !app_cons, IH. Qed.

Lemma app_length a b :
  String.length (a +:+ b) = (String.length a + String.length b)%nat.
Proof. induction a as [|x a IH]; [done|]. rewrite app_cons. simpl. by rewrite IH. Qed.

(** Cancellation of a common suffix. *)
Lemma app_inv_tail a b c : a +:+ c = b +:+ c → a = b.
Proof.
  revert b. induction a as [|x a IH]; intros [|y b] H.
  - done.
  - apply (f_equal String.length) in H.
    rewrite app_nil_l, app_cons in H. simpl in H. rewrite app_length in H. lia.
  - apply (f_equal String.length) in H.
    rewrite app_nil_l, app_cons in H. simpl in H. rewrite app_length in H. lia.
  - rewrite !app_cons in H. injection H as -> H. f_equal. by apply IH.
Qed.

Lemma app_neq s t : t ≠ EmptyString → s ≠ s +:+ t.
Proof.
  intros Ht H. apply (f_equal String.length) in H. rewrite app_length in H.
  destruct t; [done|]. simpl in H. lia.
Qed.

Lemma drop_prefix_spec p s r : drop_prefix p s = Some r ↔ s = p +:+ r.
Proof.
  revert s. induction p as [|a p IH]; intros s; simpl.
  - rewrite app_nil_l. split; [by intros [= ->]|by intros ->].
  - destruct s as [|b s]; [by rewrite app_cons|].
    rewrite app_cons. destruct (Ascii.eqb_spec a b) as [->|Hne].
    + rewrite IH. split; [by intros ->|by intros [= ->]].
    + split; [done|]. intros [= ? ?]. by subst.
Qed.

Lemma includes_spec pat s : includes pat s = true ↔ occurs pat s.
Proof.
  induction s as [|c s IH]; simpl.
  - destruct (drop_prefix pat EmptyString) as [r|] eqn:E.
    + apply drop_prefix_spec in E. split; [|done]. intros _.
      exists EmptyString, r. by rewrite app_nil_l.
    + split; [done|]. intros ([|x a] & b & H); [|by rewrite app_cons in H].
      rewrite app_nil_l in H. apply drop_prefix_spec in H. congruence.
  - destruct (drop_prefix pat (String c s)) as [r|] eqn:E.
    + apply drop_prefix_spec in E. split; [|done]. intros _.
      exists EmptyString, r. by rewrite app_nil_l.
    + rewrite IH. split.
      * intros (a & b & ->). exists (String c a), b. by rewrite app_cons.
      * intros ([|x a] & b & H).
        -- rewrite app_nil_l in H. apply drop_prefix_spec in H. congruence.
        -- rewrite app_cons in H. injection H as _ ->. by exists a, b.
Qed.

Lemma occurs_app_r pat s t : occurs pat s → occurs pat (s +:+ t).
Proof.
  intros (a & b & ->). exists a, (b +:+ t). by rewrite !app_assoc.
Qed.

Lemma includes_app_r pat s t : includes pat s = true → includes pat (s +:+ t) = true.
Proof. rewrite !includes_spec. apply occurs_app_r. Qed.

Lemma ends_with_spec suffix s : ends_with suffix s = true ↔ ∃ p, s = p +:+ suffix.
Proof.
  induction s as [|c s IH]; simpl.
  - rewrite orb_false_r. split.
    + intros ->%String.eqb_eq. by exists EmptyString.
    + intros ([|x p] & H); [|by rewrite app_cons in H].
      rewrite app_nil_l in H. subst. apply String.eqb_refl.
  - rewrite orb_true_iff, IH. split.
    + intros [->%String.eqb_eq|(p & ->)].
      * by exists EmptyString.
      * exists (String c p). by rewrite app_cons.
    + intros ([|x p] & H).
      * left. rewrite app_nil_l in H. subst. apply String.eqb_refl.
      * right. rewrite app_cons in H. injection H as _ ->. by exists p.
Qed.

Lemma ends_with_app p suffix : ends_with suffix (p +:+ suffix) = true.
Proof. apply ends_with_spec. by exists p. Qed.

End TextFacts.

Import TextFacts.

(** ** Facts about the state *)

Section StateFacts.

Lemma items_with_items f st : items (with_items f st) = f (items st).
Proof. unfold items, with_items. by destruct (store st). Qed.

Lemma DOMAIN_with_items f st : DOMAIN (with_items f st) = DOMAIN st.
Proof. unfold with_items. by destruct (store st). Qed.

Lemma store_with_items f st : store (with_items f st) = store st.
Proof. unfold with_items. by destruct (store st). Qed.

Lemma console_with_items f st : console (with_items f st) = console st.
Proof. unfold with_items. by destruct (store st). Qed.

Lemma getFullKey_DOMAIN key st st' :
  DOMAIN st' = DOMAIN st → getFullKey key st' = getFullKey key st.
Proof. unfold getFullKey. by intros ->. Qed.

Lemma getExpirationKey_DOMAIN key st st' :
  DOMAIN st' = DOMAIN st → getExpirationKey key st' = getExpirationKey key st.
Proof. unfold getExpirationKey. by intros ->%(getFullKey_DOMAIN key). Qed.

Lemma getExpirationKey_neq key st : getFullKey key st ≠ getExpirationKey key st.
Proof. apply app_neq. done. Qed.

(** The full keys and the expiration keys all contain an underscore. *)
Lemma getFullKey_underscore key st : Text.includes "_" (getFullKey key st) = true.
Proof. apply includes_spec. by exists (DOMAIN st), key. Qed.

Lemma getExpirationKey_underscore key st :
  Text.includes "_" (getExpirationKey key st) = true.
Proof. apply includes_app_r, getFullKey_underscore. Qed.

(** *** [setExpiration] either writes the expiration key or logs *)

Lemma setExpiration_cases key e now st :
  (∃ text, setExpiration key e now st = setItem (getExpirationKey key st) text st)
  ∨ setExpiration key e now st = log (console_warn expiration_warning) st
  ∨ setExpiration key e now st = st.
Proof.
  unfold setExpiration.
  destruct (_ || _ || _); [by right; left|].
  destruct (Text.last_char e); [left; eauto|by right; right].
Qed.

Lemma DOMAIN_setExpiration key e now st : DOMAIN (setExpiration key e now st) = DOMAIN st.
Proof.
  destruct (setExpiration_cases key e now st) as [[t ->]|[->| ->]]; [|done..].
  apply DOMAIN_with_items.
Qed.

Lemma store_setExpiration key e now st : store (setExpiration key e now st) = store st.
Proof.
  destruct (setExpiration_cases key e now st) as [[t ->]|[->| ->]]; [|done..].
  apply store_with_items.
Qed.

Lemma DOMAIN_set key v e now st : DOMAIN (set key v e now st) = DOMAIN st.
Proof.
  unfold set. destruct (Text.is_empty key); [done|].
  destruct e as [e|]; [destruct (Text.is_empty e)|];
    rewrite ?DOMAIN_setExpiration; apply DOMAIN_with_items.
Qed.

Lemma store_set key v e now st : store (set key v e now st) = store st.
Proof.
  unfold set. destruct (Text.is_empty key); [done|].
  destruct e as [e|]; [destruct (Text.is_empty e)|];
    rewrite ?store_setExpiration; apply store_with_items.
Qed.

(** *** The loop of [clearDomain] *)

Lemma clearDomain_loop pat l st k :
  let step st key := if Text.includes pat key then removeItem key st else st in
  items (foldl step st l) !! k =
    if bool_decide (k ∈ l) && Text.includes pat k then None else items st !! k.
Proof.
  intros step. revert st. induction l as [|a l IH]; intros st; simpl.
  - done.
  - rewrite IH.
    assert (items (step st a) !! k =
            if Text.includes pat a then delete a (items st) !! k else items st !! k) as ->.
    { unfold step. destruct (Text.includes pat a); [|done].
      unfold removeItem. by rewrite items_with_items. }
    destruct (decide (k = a)) as [->|Hne].
    + rewrite (bool_decide_eq_true_2 (a ∈ a :: l)) by apply list_elem_of_here.
      destruct (Text.includes pat a); simpl.
      * destruct (_ && _); [done|]. apply lookup_delete_eq.
      * by rewrite andb_false_r.
    + assert (bool_decide (k ∈ a :: l) = bool_decide (k ∈ l)) as ->.
      { apply bool_decide_ext. rewrite elem_of_cons. split; [by intros [?|?]|by right]. }
      destruct (_ && _); [done|].
      destruct (Text.includes pat a); [|done]. by apply lookup_delete_ne.
Qed.

Lemma clearDomain_loop_frame pat l st :
  let step st key := if Text.includes pat key then removeItem key st else st in
  DOMAIN (foldl step st l) = DOMAIN st ∧ store (foldl step st l) = store st
  ∧ console (foldl step st l) = console st.
Proof.
  intros step. revert st. induction l as [|a l IH]; intros st; simpl; [done|].
  destruct (IH (step st a)) as (-> & -> & ->). unfold step.
  destruct (Text.includes pat a); [|done]. unfold removeItem.
  by rewrite DOMAIN_with_items, store_with_items, console_with_items.
Qed.

(** No expiration key has the name of a member of the prototype chain. *)
Lemma enumerated_expiration k : enumerated (k +:+ EXPIRE) = true.
Proof.
  unfold enumerated. apply negb_true_iff, not_true_is_false.
  intros (n & Hin & Heq%String.eqb_eq)%existsb_exists. subst n.
  pose proof (ends_with_app k EXPIRE) as Hend.
  unfold prototype_names in Hin. simpl in Hin.
  repeat (destruct Hin as [Hin|Hin]; [by rewrite <- Hin in Hend|]). done.
Qed.

Lemma clearDomain_lookup domain st k :
  items (clearDomain domain st) !! k =
    if Text.includes (default (DOMAIN st) domain +:+ "_") k && enumerated k then None
    else items st !! k.
Proof.
  unfold clearDomain.
  assert (match domain with Some d => d | None => DOMAIN st end
          = default (DOMAIN st) domain) as -> by by destruct domain.
  rewrite clearDomain_loop.
  destruct (Text.includes _ k); [|by rewrite andb_false_r].
  rewrite andb_true_r, andb_true_l.
  destruct (enumerated k) eqn:Hen.
  - case_bool_decide as Hk; [done|].
    destruct (items st !! k) as [v|] eqn:Hv; [|done]. exfalso. apply Hk.
    unfold keys. apply list_elem_of_In, filter_In. split; [|done].
    apply list_elem_of_In, list_elem_of_fmap. exists (k, v). split; [done|].
    by apply elem_of_map_to_list.
  - rewrite bool_decide_eq_false_2; [done|].
    unfold keys. intros [_ Hk]%list_elem_of_In%filter_In. by rewrite Hen in Hk.
Qed.

(** An expiration key is removed exactly when it contains the pattern. *)
Lemma clearDomain_lookup_expiration domain st k :
  items (clearDomain domain st) !! (k +:+ EXPIRE) =
    if Text.includes (default (DOMAIN st) domain +:+ "_") (k +:+ EXPIRE) then None
    else items st !! (k +:+ EXPIRE).
Proof. by rewrite clearDomain_lookup, enumerated_expiration, andb_true_r. Qed.

Lemma other_items_with_items f st : other_items (with_items f st) = other_items st.
Proof. by destruct st as [d [] l s c]. Qed.

(** [clearDomain] works on the selected storage only. *)
Lemma clearDomain_other_items domain st :
  other_items (clearDomain domain st) = other_items st.
Proof.
  unfold clearDomain.
  generalize (match domain with Some d => d | None => DOMAIN st end +:+ "_") as pat.
  generalize (keys st) as l.
  intros l pat. revert st. induction l as [|a l IH]; intros st; simpl; [done|].
  rewrite IH. destruct (Text.includes pat a); [|done]. apply other_items_with_items.
Qed.

Lemma remove_lookup key st k :
  getItem k (remove key st) =
    if bool_decide (k = getFullKey key st ∨ k = getExpirationKey key st) then None
    else getItem k st.
Proof.
  unfold remove, getItem, removeItem. rewrite !items_with_items.
  case_bool_decide as Hk.
  - destruct Hk as [->| ->].
    + rewrite lookup_delete_ne by (symmetry; apply getExpirationKey_neq).
      apply lookup_delete_eq.
    + apply lookup_delete_eq.
  - rewrite !lookup_delete_ne; [done|intros ?; subst; tauto..].
Qed.

Lemma DOMAIN_remove key st : DOMAIN (remove key st) = DOMAIN st.
Proof. unfold remove, removeItem. by rewrite !DOMAIN_with_items. Qed.

Lemma parse_absent : JSON.parse (item_text None) = Some VNull.
Proof. reflexivity. Qed.

(** *** [set] only adds or overwrites entries *)

Lemma setExpiration_keeps_entries key e now st k :
  is_Some (getItem k st) → is_Some (getItem k (setExpiration key e now st)).
Proof.
  intros Hk.
  destruct (setExpiration_cases key e now st) as [[t ->]|[->| ->]]; [|done..].
  unfold getItem, setItem. rewrite items_with_items.
  rewrite lookup_insert. by case_decide.
Qed.

Lemma set_keeps_entries key v e now st k :
  is_Some (getItem k st) → is_Some (getItem k (set key v e now st)).
Proof.
  intros Hk. unfold set. destruct (Text.is_empty key); [done|].
  assert (is_Some (getItem k (setItem (getFullKey key st) (stored_text v) st))) as Hk'.
  { unfold getItem, setItem. rewrite items_with_items.
    rewrite lookup_insert. by case_decide. }
  destruct e as [e|]; [|done]. destruct (Text.is_empty e); [done|].
  by apply setExpiration_keeps_entries.
Qed.

End StateFacts.

(** ** Removal and reads *)

Section ReadFacts.
Variable Date_parse : string → option Z.

(** A key with no expiration entry is not expired. *)
Lemma expired_absent key now st :
  getItem (getExpirationKey key st) st = None →
  expired Date_parse key now st = Return false.
Proof.
  intros H. unfold expired, hasExpirationDate. rewrite H.
  by rewrite bool_decide_eq_false_2 by (intros ?; done).
Qed.

Lemma get_not_expired key now st :
  expired Date_parse key now st = Return false →
  get Date_parse key now st =
    (Return
       match getItem (getFullKey key st) st with
       | None => VNull
       | Some raw =>
           match JSON.parse raw with
           | Some v => v
           | None => VStr raw
           end
       end, st).
Proof.
  intros H. unfold get. rewrite H.
  destruct (getItem (getFullKey key st) st) as [raw|].
  - unfold item_text. by destruct (JSON.parse raw).
  - by rewrite parse_absent.
Qed.

(** The guard of [get] is false for a key without a past expiration. *)
Lemma no_past_expiration_expired key now st :
  no_past_expiration Date_parse key now st →
  expired Date_parse key now st = Return false.
Proof.
  unfold no_past_expiration, expired, hasExpirationDate, hasExpired. intros H.
  destruct (getItem (getExpirationKey key st) st) as [text|].
  - rewrite bool_decide_eq_true_2 by done.
    destruct H as (v & Hv & Ht). unfold item_text. rewrite Hv.
    destruct (Date.of_value Date_parse v) as [t|]; [|done].
    by rewrite (proj2 (Z.ltb_ge _ _) (Ht t eq_refl)).
  - by rewrite bool_decide_eq_false_2 by (intros ?; done).
Qed.

End ReadFacts.

(** ** The claims *)

Section ReadClaims.
Variable Date_parse : string → option Z.

(** C3. When the expiration key of [key] holds an instant strictly before
    the time of the read, [get] removes the full key and the expiration
    key, leaves every other entry alone and returns [null]; a later read
    finds nothing, as if the key had never been stored. *)
Theorem get_expired_removes_and_returns_null key now st text v t :
  getItem (getExpirationKey key st) st = Some text →
  JSON.parse text = Some v →
  Date.of_value Date_parse v = Some t →
  t < now →
  (get Date_parse key now st).1 = Return VNull
  ∧ (get Date_parse key now st).2 = remove key st
  ∧ getItem (getFullKey key st) (get Date_parse key now st).2 = None
  ∧ getItem (getExpirationKey key st) (get Date_parse key now st).2 = None
  ∧ (∀ k, k ≠ getFullKey key st → k ≠ getExpirationKey key st →
          getItem k (get Date_parse key now st).2 = getItem k st)
  ∧ (∀ now', get Date_parse key now' (get Date_parse key now st).2
             = (Return VNull, (get Date_parse key now st).2)).
Proof.
  intros Htext Hv Ht Hlt.
  assert (get Date_parse key now st = (Return VNull, remove key st)) as ->.
  { unfold get, expired, hasExpirationDate, hasExpired.
    rewrite Htext. rewrite bool_decide_eq_true_2 by done.
    unfold item_text. rewrite Hv, Ht.
    by rewrite (proj2 (Z.ltb_lt t now) Hlt). }
  simpl. split; [done|]. split; [done|].
  assert (Hfull : getItem (getFullKey key st) (remove key st) = None).
  { rewrite remove_lookup. by rewrite bool_decide_eq_true_2 by (by left). }
  assert (Hexp : getItem (getExpirationKey key st) (remove key st) = None).
  { rewrite remove_lookup. by rewrite bool_decide_eq_true_2 by (by right). }
  split; [done|]. split; [done|]. split.
  - intros k H1 H2. rewrite remove_lookup.
    by rewrite bool_decide_eq_false_2 by tauto.
  - intros now'. rewrite get_not_expired.
    + rewrite (getFullKey_DOMAIN key st) by apply DOMAIN_remove. by rewrite Hfull.
    + apply expired_absent.
      rewrite (getExpirationKey_DOMAIN key st) by apply DOMAIN_remove. done.
Qed.

(** C7 (as amended). When the key has no expiration entry, or has one
    that is JSON text and denotes no instant before the time of the read,
    [get] reads the full key and leaves the state alone: a raw string that
    parses as JSON gives the parsed value, one that does not parse is
    returned as it is, and a missing entry gives [null]; in no case does
    [get] throw. *)
Theorem get_parses_or_returns_raw key now st :
  no_past_expiration Date_parse key now st →
  (∀ raw v, getItem (getFullKey key st) st = Some raw → JSON.parse raw = Some v →
            get Date_parse key now st = (Return v, st))
  ∧ (∀ raw, getItem (getFullKey key st) st = Some raw → JSON.parse raw = None →
            get Date_parse key now st = (Return (VStr raw), st))
  ∧ (getItem (getFullKey key st) st = None →
     get Date_parse key now st = (Return VNull, st)).
Proof.
  intros H. rewrite (get_not_expired _ _ _ _ (no_past_expiration_expired _ _ _ _ H)).
  split; [|split].
  - by intros raw v -> ->.
  - by intros raw -> ->.
  - by intros ->.
Qed.

(** C9. [set] without an expiration format (none, or the empty string)
    overwrites the value and leaves the expiration entry of the key as it
    was, so an expiration attached earlier goes on applying to the new
    value; and [set], whatever its arguments, deletes no entry. *)
Theorem set_without_expiration_keeps_expiration key v e now st :
  key ≠ EmptyString →
  e = None ∨ e = Some EmptyString →
  let st' := set key v e now st in
  getItem (getFullKey key st') st' = Some (stored_text v)
  ∧ getItem (getExpirationKey key st') st' = getItem (getExpirationKey key st) st
  ∧ hasExpirationDate key st' = hasExpirationDate key st
  ∧ (∀ now', hasExpired Date_parse key now' st' = hasExpired Date_parse key now' st)
  ∧ (∀ now', expired Date_parse key now' st' = expired Date_parse key now' st)
  ∧ (∀ e' now' k, is_Some (getItem k st) → is_Some (getItem k (set key v e' now' st))).
Proof.
  intros Hkey He st'.
  assert (Hst' : st' = setItem (getFullKey key st) (stored_text v) st).
  { unfold st', set. destruct key; [done|]. by destruct He as [->| ->]. }
  assert (HF : getFullKey key st' = getFullKey key st).
  { apply getFullKey_DOMAIN, DOMAIN_set. }
  assert (HE : getExpirationKey key st' = getExpirationKey key st).
  { apply getExpirationKey_DOMAIN, DOMAIN_set. }
  assert (Hexp : getItem (getExpirationKey key st') st'
                 = getItem (getExpirationKey key st) st).
  { rewrite HE, Hst'. unfold getItem, setItem. rewrite items_with_items.
    apply lookup_insert_ne, getExpirationKey_neq. }
  split; [|split; [done|split; [|split; [|split]]]].
  - rewrite HF, Hst'. unfold getItem, setItem. rewrite items_with_items.
    apply lookup_insert_eq.
  - unfold hasExpirationDate. by rewrite Hexp.
  - intros now'. unfold hasExpired. by rewrite Hexp.
  - intros now'. unfold expired, hasExpirationDate, hasExpired. by rewrite Hexp.
  - intros e' now' k Hk. apply set_keeps_entries. done.
Qed.

End ReadClaims.

(** C5. [clearDomain(d)], with [d] defaulting to the current [DOMAIN],
    removes the entries whose key contains [d] followed by an underscore,
    wherever in the key, among the keys that [Object.keys] lists, and
    leaves every other entry, the domain and the selected storage as they
    were.  It misses a stored key that has the name of a member of the
    prototype chain: with the default domain, the value that [set] stores
    for the key [_proto__] is under [__proto__], contains an underscore,
    and is still there after [clearDomain()]. *)
Theorem clearDomain_misses_prototype_names domain st :
  let d := default (DOMAIN st) domain in
  (∀ k, getItem k (clearDomain domain st) =
          if Text.includes (d +:+ "_") k && enumerated k then None else getItem k st)
  ∧ (∀ k, Text.includes (d +:+ "_") k = true ↔ ∃ a b, k = a +:+ (d +:+ "_") +:+ b)
  ∧ DOMAIN (clearDomain domain st) = DOMAIN st
  ∧ store (clearDomain domain st) = store st
  ∧ console (clearDomain domain st) = console st
  ∧ (getFullKey "_proto__" initial = "__proto__"
     ∧ Text.includes (default (DOMAIN proto_key) None +:+ "_") "__proto__" = true
     ∧ getItem "__proto__" proto_key = Some "v"
     ∧ getItem "__proto__" (clearDomain None proto_key) = Some "v").
Proof.
  intros d. split; [|split; [|split; [|split; [|split]]]].
  - intros k. apply clearDomain_lookup.
  - intros k. apply includes_spec.
  - apply clearDomain_loop_frame.
  - apply clearDomain_loop_frame.
  - apply clearDomain_loop_frame.
  - repeat split; vm_compute; reflexivity.
Qed.

(** C6. [set] with the empty key writes nothing: both storages are
    unchanged, and the only effect is one [console.error] message. *)
Theorem set_empty_key_writes_nothing v e now st :
  set EmptyString v e now st = log (console_error key_error) st
  ∧ localStorage (set EmptyString v e now st) = localStorage st
  ∧ sessionStorage (set EmptyString v e now st) = sessionStorage st
  ∧ items (set EmptyString v e now st) = items st
  ∧ size (items (set EmptyString v e now st)) = size (items st)
  ∧ console (set EmptyString v e now st) = console st ++ [console_error key_error].
Proof. done. Qed.

(** C8. [setDomain(d)] makes [d] the domain and changes nothing else:
    the selected storage, the entries of both storages and the console
    stay as they were. *)
Theorem setDomain_only_sets_domain d st :
  DOMAIN (setDomain d st) = d
  ∧ store (setDomain d st) = store st
  ∧ localStorage (setDomain d st) = localStorage st
  ∧ sessionStorage (setDomain d st) = sessionStorage st
  ∧ items (setDomain d st) = items st
  ∧ console (setDomain d st) = console st.
Proof. done. Qed.

(** C10 (as amended). With the empty domain, [clearDomain()] removes from
    the selected storage every entry whose key contains an underscore and
    is listed by [Object.keys], and keeps the others; the full key and the
    expiration key of any logical key under any domain contain one, so no
    expiration key and no listed full key is left in the selected
    storage.  The storage that is not selected is left as it was. *)
Theorem clearDomain_empty_domain_removes_every_library_key st :
  DOMAIN st = EmptyString →
  (∀ k, enumerated k = true →
        getItem k (clearDomain None st) =
          if Text.includes "_" k then None else getItem k st)
  ∧ (∀ st' key, Text.includes "_" (getFullKey key st') = true
                ∧ Text.includes "_" (getExpirationKey key st') = true)
  ∧ (∀ st' key, enumerated (getFullKey key st') = true →
                getItem (getFullKey key st') (clearDomain None st) = None)
  ∧ (∀ st' key, getItem (getExpirationKey key st') (clearDomain None st) = None)
  ∧ other_items (clearDomain None st) = other_items st.
Proof.
  intros Hd.
  assert (H : ∀ k, enumerated k = true →
                   getItem k (clearDomain None st) =
                     if Text.includes "_" k then None else getItem k st).
  { intros k Hk. unfold getItem. rewrite clearDomain_lookup. simpl.
    by rewrite Hd, Hk, andb_true_r. }
  split; [done|]. split; [|split; [|split]].
  - intros st' key. split; [apply getFullKey_underscore|apply getExpirationKey_underscore].
  - intros st' key Hk. rewrite H by done. by rewrite getFullKey_underscore.
  - intros st' key. rewrite H by apply enumerated_expiration.
    by rewrite getExpirationKey_underscore.
  - apply clearDomain_other_items.
Qed.

(** ** Numbers written in digits *)

Section DigitFacts.
Import Text.

Lemma is_digit_cases c :
  is_digit c = true →
  c ∈ ["0"; "1"; "2"; "3"; "4"; "5"; "6"; "7"; "8"; "9"]%char.
Proof.
  destruct c as [[] [] [] [] [] [] [] []]; simpl; try discriminate; intros _;
    repeat (first [apply list_elem_of_here | apply list_elem_of_further]).
Qed.

Lemma span_app p ds rest :
  all p ds = true → head_is p rest = false → span p (ds +:+ rest) = (ds, rest).
Proof.
  intros Hds Hrest. induction ds as [|c ds IH].
  - rewrite app_nil_l. destruct rest as [|c r]; [done|].
    simpl in *. by rewrite Hrest.
  - simpl in Hds. apply andb_true_iff in Hds as [Hc Hds].
    rewrite app_cons. simpl. by rewrite Hc, (IH Hds).
Qed.

Lemma span_all p ds : all p ds = true → span p ds = (ds, EmptyString).
Proof.
  intros H. rewrite <- (app_nil_r ds) at 1. by apply span_app.
Qed.

Lemma all_digits_uint d : all is_digit (NilEmpty.string_of_uint d) = true.
Proof. induction d; simpl; done. Qed.

Lemma all_digits n : all is_digit (digits n) = true.
Proof. apply all_digits_uint. Qed.

Lemma uint_of_string_digits ds :
  all is_digit ds = true → ∃ d, NilEmpty.uint_of_string ds = Some d.
Proof.
  induction ds as [|c ds IH]; simpl; [by eexists|].
  intros [Hc Hds]%andb_true_iff. destruct (IH Hds) as [d ->].
  apply is_digit_cases in Hc.
  each_case Hc (by eexists).
Qed.

Lemma digits_value_digits n : digits_value (digits n) = n.
Proof.
  unfold digits_value, digits. rewrite NilEmpty.usu. apply Unsigned.of_to.
Qed.

(** [digits n] has no leading zero, except for zero itself. *)
Lemma digits_head n :
  digits n = "0" ∨ ∃ c r, digits n = String c r ∧ is_digit c = true ∧ c ≠ "0"%char.
Proof.
  unfold digits.
  assert (H : N.to_uint n = Decimal.unorm (N.to_uint n)).
  { rewrite <- (Unsigned.to_of (N.to_uint n)). by rewrite Unsigned.of_to. }
  unfold Decimal.unorm in H.
  pose proof (nzhead_nonzero (N.to_uint n)) as Hnz.
  destruct (Decimal.nzhead (N.to_uint n)) as [|d|d|d|d|d|d|d|d|d|d] eqn:E;
    rewrite H; simpl;
    first [ by left | by (exfalso; eapply Hnz) | right; eexists _, _; done ].
Qed.

End DigitFacts.

Section NumberFacts.
Import Text.

Lemma strip_zeros_value fuel m e :
  0 ≤ e →
  0 ≤ (Number.strip_zeros fuel m e).2
  ∧ (Number.strip_zeros fuel m e).1 * 10 ^ (Number.strip_zeros fuel m e).2 = m * 10 ^ e.
Proof.
  revert m e. induction fuel as [|fuel IH]; intros m e He; simpl; [done|].
  destruct (_ && _) eqn:Hz; [|done].
  apply andb_true_iff in Hz as [Hz _]. apply Z.eqb_eq in Hz.
  destruct (IH (m / 10) (e + 1)) as [H1 H2]; [lia|].
  split; [done|]. rewrite H2.
  rewrite Z.pow_add_r, Z.pow_1_r by lia.
  rewrite (Z.div_mod m 10) at 2 by lia. rewrite Hz. lia.
Qed.

Lemma of_decimal_integer z :
  Z.abs z < 10 ^ 21 → Number.of_decimal z 0 = Int z.
Proof.
  intros Hz. unfold Number.of_decimal.
  destruct (strip_zeros_value (Z.to_nat (Z.log2 (Z.abs z))) z 0) as [H1 H2]; [done|].
  destruct (Number.strip_zeros _ z 0) as [m e]. simpl in H1, H2.
  rewrite (proj2 (Z.leb_le 0 e) H1). rewrite H2, Z.mul_1_r.
  by rewrite (proj2 (Z.ltb_lt _ _) Hz).
Qed.

Lemma of_decimal_not_NaN m e : Number.of_decimal m e ≠ NaN.
Proof.
  unfold Number.of_decimal. destruct (Number.strip_zeros _ m e) as [m' e'].
  repeat (match goal with |- context [if ?b then _ else _] => destruct b end); done.
Qed.

Lemma first_prefix_digit c r :
  is_digit c = true → Number.first_prefix Number.white_space (String c r) = None.
Proof.
  intros Hc%is_digit_cases.
  each_case Hc reflexivity.
Qed.

Lemma skip_white_space_digit fuel c r :
  is_digit c = true → Number.skip_white_space fuel (String c r) = String c r.
Proof.
  intros Hc. destruct fuel; [done|].
  cbn [Number.skip_white_space]. by rewrite first_prefix_digit.
Qed.

Lemma non_decimal_digits ds : all is_digit ds = true → Number.non_decimal ds = None.
Proof.
  destruct ds as [|c [|p r]]; [done|by destruct c as [[] [] [] [] [] [] [] []]|].
  simpl. intros [_ [Hp _]%andb_true_iff]%andb_true_iff.
  unfold Number.non_decimal.
  assert (Ascii.eqb p "x" || Ascii.eqb p "X" = false) as Hx.
  { apply is_digit_cases in Hp.
    each_case Hp reflexivity. }
  assert (Ascii.eqb p "o" || Ascii.eqb p "O" = false) as Ho.
  { apply is_digit_cases in Hp.
    each_case Hp reflexivity. }
  assert (Ascii.eqb p "b" || Ascii.eqb p "B" = false) as Hb.
  { apply is_digit_cases in Hp.
    each_case Hp reflexivity. }
  rewrite Hx, Ho, Hb. by destruct c as [[] [] [] [] [] [] [] []].
Qed.

(** A string of digits converts to a number. *)
Lemma of_string_digits ds :
  ds ≠ EmptyString → all is_digit ds = true → Number.of_string ds ≠ NaN.
Proof.
  intros Hne Hds. destruct ds as [|c r]; [done|]. clear Hne.
  pose proof Hds as Hall. simpl in Hds. apply andb_true_iff in Hds as [Hc Hr].
  unfold Number.of_string. rewrite skip_white_space_digit by done.
  cbn [is_empty]. unfold Number.numeric_literal.
  rewrite non_decimal_digits by done.
  assert (Number.signed (String c r) = (false, String c r)) as ->.
  { apply is_digit_cases in Hc.
    each_case Hc reflexivity. }
  assert (drop_prefix "Infinity" (String c r) = None) as ->.
  { apply is_digit_cases in Hc.
    each_case Hc reflexivity. }
  unfold Number.unsigned_decimal. rewrite (span_all _ _ Hall).
  cbn [is_empty andb Number.exponent]. cbn [Number.skip_white_space String.length is_empty].
  apply of_decimal_not_NaN.
Qed.

End NumberFacts.

(** ** Expiration formats *)

Section FormatFacts.
Import Text.

Lemma is_unit_cases u : is_unit u = true → u ∈ allowedFormats.
Proof.
  unfold is_unit, allowedFormats. simpl. rewrite !orb_true_iff, !Ascii.eqb_eq.
  intros [->|[->|[->|[->|?]]]]; [..|done];
    repeat (first [apply list_elem_of_here | apply list_elem_of_further]).
Qed.

Lemma digit_not_unit c u : is_digit c = true → is_unit u = true → Ascii.eqb c u = false.
Proof.
  intros Hc%is_digit_cases Hu%is_unit_cases. unfold allowedFormats in Hu.
  each_case Hc (each_case Hu reflexivity).
Qed.

Lemma same_key_test c :
  existsb (fun char => bool_decide (Some c = Some char)) allowedFormats = is_unit c.
Proof.
  assert (∀ x, bool_decide (Some c = Some x) = Ascii.eqb c x) as H.
  { intros x. destruct (Ascii.eqb_spec c x) as [->|Hne].
    - by rewrite bool_decide_eq_true_2.
    - rewrite bool_decide_eq_false_2; [done|]. by intros [= ->]. }
  unfold is_unit, allowedFormats. simpl. by rewrite !H.
Qed.

Lemma digits_then_unit_inv e :
  digits_then_unit e = true →
  ∃ ds u, e = ds +:+ String u EmptyString ∧ ds ≠ EmptyString
          ∧ all is_digit ds = true ∧ is_unit u = true.
Proof.
  induction e as [|d r IH]; [done|].
  destruct r as [|u [|x r']].
  - simpl. by rewrite andb_false_r.
  - simpl. intros [Hd Hu]%andb_true_iff.
    exists (String d EmptyString), u. simpl. by rewrite Hd.
  - intros H.
    assert (is_digit d = true ∧ digits_then_unit (String u (String x r')) = true)
      as [Hd Hr] by (by apply andb_true_iff).
    destruct (IH Hr) as (ds & u' & Heq & _ & Hds & Hu').
    exists (String d ds), u'. rewrite app_cons, <- Heq. simpl. by rewrite Hd, Hds.
Qed.

Lemma last_char_app ds u : last_char (ds +:+ String u EmptyString) = Some u.
Proof.
  induction ds as [|c ds IH]; [done|]. rewrite app_cons.
  destruct (ds +:+ String u EmptyString) eqn:E; [|done].
  by destruct ds.
Qed.

(** When [u] occurs nowhere in [p], what [replace] drops from [p] followed
    by [u] is the trailing [u]. *)
Lemma remove_first_last p u :
  all (fun c => negb (Ascii.eqb c u)) p = true →
  remove_first u (p +:+ String u EmptyString) = p.
Proof.
  intros Hp. induction p as [|c p IH].
  - rewrite app_nil_l. simpl. by rewrite Ascii.eqb_refl.
  - simpl in Hp. apply andb_true_iff in Hp as [Hc Hp].
    rewrite app_cons. simpl. apply negb_true_iff in Hc. rewrite Hc. by rewrite IH.
Qed.

Lemma digits_without_unit ds u :
  all is_digit ds = true → is_unit u = true →
  all (fun c => negb (Ascii.eqb c u)) ds = true.
Proof.
  intros Hds Hu. induction ds as [|c ds IH]; [done|].
  simpl in *. apply andb_true_iff in Hds as [Hc Hds].
  by rewrite (digit_not_unit c u Hc Hu), IH.
Qed.

Lemma remove_first_app ds u :
  all is_digit ds = true → is_unit u = true →
  remove_first u (ds +:+ String u EmptyString) = ds.
Proof. intros Hds Hu. by apply remove_first_last, digits_without_unit. Qed.

(** For a format whose last character occurs nowhere before, validity is
    about the text before that character. *)
Lemma valid_format_prefix p u :
  all (fun c => negb (Ascii.eqb c u)) p = true →
  valid_format (p +:+ String u EmptyString)
  ↔ p ≠ EmptyString ∧ is_unit u = true ∧ Number.of_string p ≠ NaN.
Proof.
  intros Hp. unfold valid_format. rewrite app_length, last_char_app. simpl. split.
  - intros (Hlen & c & [= <-] & Hu & Hnum). rewrite remove_first_last in Hnum by done.
    split; [|done]. intros ->. simpl in Hlen. lia.
  - intros (Hne & Hu & Hnum). split.
    + destruct p; [done|]. simpl. lia.
    + exists u. by rewrite remove_first_last.
Qed.

Lemma digits_then_unit_valid e : digits_then_unit e = true → valid_format e.
Proof.
  intros (ds & u & -> & Hne & Hds & Hu)%digits_then_unit_inv. split.
  - rewrite app_length. destruct ds; [done|]. simpl. lia.
  - exists u. split; [apply last_char_app|]. split; [done|].
    rewrite remove_first_app by done. by apply of_string_digits.
Qed.

(** The test of [setExpiration] fails exactly on the valid formats. *)
Lemma setExpiration_valid key e now st :
  valid_format e →
  ∃ timeKey,
    last_char e = Some timeKey
    ∧ setExpiration key e now st =
        setItem (getExpirationKey key st)
          (JSON.stringify
             (VNum (timeFormats timeKey now (Number.of_string (remove_first timeKey e)))))
          st.
Proof.
  intros (Hlen & c & Hlast & Hu & Hnum). exists c. split; [done|].
  unfold setExpiration. rewrite Hlast, same_key_test, Hu.
  rewrite (proj2 (Nat.ltb_ge _ _) Hlen).
  destruct (Number.of_string _); done.
Qed.

Lemma setExpiration_invalid key e now st :
  ¬ valid_format e →
  setExpiration key e now st = log (console_warn expiration_warning) st.
Proof.
  intros Hinv. unfold setExpiration.
  destruct (last_char e) as [c|] eqn:Hlast; [|by rewrite orb_true_r].
  rewrite same_key_test.
  destruct (String.length e <? 2)%nat eqn:Hlen; [done|].
  destruct (is_unit c) eqn:Hu; [|done].
  destruct (Number.isNaN _) eqn:Hnan; [done|].
  exfalso. apply Hinv. split; [by apply Nat.ltb_ge|].
  exists c. split; [done|]. split; [done|]. intros E. by rewrite E in Hnan.
Qed.

End FormatFacts.

(** C2 (as amended). [setExpiration] writes the expiration entry exactly
    for the formats of two characters or more whose last character is one of
    [s], [m], [h], [d] and whose numeric part converts to a number; for
    every other string it writes nothing and logs a warning.  The numeric
    part is the text without the first occurrence of the last character:
    the text before it, when the character occurs nowhere else.  Digits
    followed by one unit character are such formats, and they are not the
    only ones. *)
Theorem setExpiration_writes_exactly_valid_formats key e now st :
  (valid_format e →
     ∃ timeKey,
       Text.last_char e = Some timeKey
       ∧ setExpiration key e now st =
           setItem (getExpirationKey key st)
             (JSON.stringify
                (VNum (timeFormats timeKey now
                         (Number.of_string (Text.remove_first timeKey e)))))
             st)
  ∧ (¬ valid_format e →
       setExpiration key e now st = log (console_warn expiration_warning) st
       ∧ items (setExpiration key e now st) = items st)
  ∧ (∀ p u, e = p +:+ String u EmptyString →
            Text.all (fun c => negb (Ascii.eqb c u)) p = true →
            valid_format e
            ↔ p ≠ EmptyString ∧ is_unit u = true ∧ Number.of_string p ≠ NaN)
  ∧ (digits_then_unit e = true → valid_format e).
Proof.
  split; [apply setExpiration_valid|]. split; [|split].
  - intros H. by rewrite setExpiration_invalid.
  - intros p u -> Hp. by apply valid_format_prefix.
  - apply digits_then_unit_valid.
Qed.

(** ** Values and their expiration entries *)

Section PairedFacts.

Lemma paired_empty : paired ∅.
Proof. intros k [v Hv]. by rewrite lookup_empty in Hv. Qed.

Lemma paired_insert_value m key text :
  Text.ends_with EXPIRE key = false → paired m → paired (<[key:=text]> m).
Proof.
  intros Hkey Hm k Hk. rewrite lookup_insert_is_Some in Hk.
  destruct Hk as [Heq|[_ Hk]].
  - rewrite Heq, ends_with_app in Hkey. done.
  - destruct (Hm k Hk) as [Hv Hend]. split; [|done].
    rewrite lookup_insert_is_Some. destruct (decide (key = k)); auto.
Qed.

Lemma paired_insert_expiration m key text :
  is_Some (m !! key) → Text.ends_with EXPIRE key = false →
  paired m → paired (<[key +:+ EXPIRE:=text]> m).
Proof.
  intros Hin Hkey Hm k Hk. rewrite lookup_insert_is_Some in Hk.
  assert (is_Some (m !! k) ∧ Text.ends_with EXPIRE k = false) as [Hv Hend].
  { destruct Hk as [Heq|[_ Hk]]; [|by apply Hm].
    apply app_inv_tail in Heq. by subst. }
  split; [|done]. rewrite lookup_insert_is_Some.
  destruct (decide (key +:+ EXPIRE = k)); auto.
Qed.

Lemma paired_delete m key :
  paired m → paired (delete (key +:+ EXPIRE) (delete key m)).
Proof.
  intros Hm k Hk. rewrite !lookup_delete_is_Some in Hk.
  destruct Hk as (Hne1 & Hne2 & Hk). destruct (Hm k Hk) as [Hv Hend].
  split; [|done]. rewrite !lookup_delete_is_Some. split; [|split; [|done]].
  - intros <-. by rewrite ends_with_app in Hend.
  - intros <-. done.
Qed.

Lemma paired_without pat m m' :
  (∀ k, m' !! k = if Text.includes pat k && enumerated k then None else m !! k) →
  paired m → paired m'.
Proof.
  intros Hm' Hm k Hk. rewrite Hm', enumerated_expiration, andb_true_r in Hk.
  destruct (Text.includes pat (k +:+ EXPIRE)) eqn:Hinc; [by destruct Hk|].
  destruct (Hm k Hk) as [Hv Hend]. split; [|done]. rewrite Hm'.
  destruct (Text.includes pat k) eqn:Hinc'; [|done].
  by rewrite (includes_app_r _ _ _ Hinc') in Hinc.
Qed.

(** *** Each operation as a change of the selected entries *)

Lemma with_items_id st : with_items (fun m => m) st = st.
Proof. destruct st as [d [] l s c]; reflexivity. Qed.

Lemma with_items_compose f g st :
  with_items g (with_items f st) = with_items (fun m => g (f m)) st.
Proof. destruct st as [d [] l s c]; reflexivity. Qed.

Lemma all_paired_with_items f st :
  all_paired st → paired (f (items st)) → all_paired (with_items f st).
Proof.
  destruct st as [d [] l s c]; unfold all_paired, items, with_items; simpl; tauto.
Qed.

Lemma all_paired_items st : all_paired st → paired (items st).
Proof. destruct st as [d [] l s c]; unfold all_paired, items; simpl; tauto. Qed.

Lemma clearDomain_with_items domain st : ∃ f, clearDomain domain st = with_items f st.
Proof.
  unfold clearDomain. generalize (keys st) as l.
  intros l. revert st. induction l as [|a l IH]; intros st; simpl.
  - exists (fun m => m). by rewrite with_items_id.
  - destruct (Text.includes _ a).
    + destruct (IH (removeItem a st)) as [f Hf].
      assert (DOMAIN (removeItem a st) = DOMAIN st) as Hd by apply DOMAIN_with_items.
      rewrite Hd in Hf. rewrite Hf. unfold removeItem.
      rewrite with_items_compose. by eexists.
    + apply IH.
Qed.

Lemma all_paired_remove key st : all_paired st → all_paired (remove key st).
Proof.
  intros H. unfold remove, removeItem. rewrite with_items_compose.
  apply all_paired_with_items; [done|]. apply paired_delete, all_paired_items, H.
Qed.

Lemma all_paired_clearDomain domain st :
  all_paired st → all_paired (clearDomain domain st).
Proof.
  intros H. destruct (clearDomain_with_items domain st) as [f Hf].
  pose proof (clearDomain_lookup domain st) as Hl.
  rewrite Hf in *. apply all_paired_with_items; [done|].
  rewrite items_with_items in Hl.
  eapply paired_without; [apply Hl|]. by apply all_paired_items.
Qed.

Lemma all_paired_setExpiration key e now st :
  is_Some (getItem (getFullKey key st) st) →
  Text.ends_with EXPIRE (getFullKey key st) = false →
  all_paired st → all_paired (setExpiration key e now st).
Proof.
  intros Hin Hend H.
  destruct (setExpiration_cases key e now st) as [[t ->]|[->| ->]]; [|done..].
  apply all_paired_with_items; [done|].
  apply paired_insert_expiration; [done..|]. by apply all_paired_items.
Qed.

Lemma all_paired_set key v e now st :
  Text.ends_with EXPIRE (getFullKey key st) = false →
  all_paired st → all_paired (set key v e now st).
Proof.
  intros Hend H. unfold set. destruct (Text.is_empty key); [done|].
  set (st1 := setItem (getFullKey key st) (stored_text v) st).
  assert (H1 : all_paired st1).
  { apply all_paired_with_items; [done|].
    apply paired_insert_value; [done|]. by apply all_paired_items. }
  destruct e as [e|]; [|done]. destruct (Text.is_empty e); [done|].
  assert (HF : getFullKey key st1 = getFullKey key st).
  { apply getFullKey_DOMAIN, DOMAIN_with_items. }
  apply all_paired_setExpiration; rewrite ?HF; [|done..].
  unfold st1, getItem, setItem. rewrite items_with_items, lookup_insert_eq. done.
Qed.

Lemma all_paired_bust st : all_paired st → all_paired (bust st).
Proof.
  intros H. apply all_paired_with_items; [done|]. apply paired_empty.
Qed.

Variable Date_parse : string → option Z.

Lemma get_state key now st :
  (get Date_parse key now st).2 = st ∨ (get Date_parse key now st).2 = remove key st.
Proof.
  unfold get. destruct (expired Date_parse key now st) as [[]|]; simpl; auto.
  destruct (JSON.parse _); auto.
Qed.

Lemma all_paired_get key now st :
  all_paired st → all_paired (get Date_parse key now st).2.
Proof.
  intros H. destruct (get_state key now st) as [-> | ->]; [done|].
  by apply all_paired_remove.
Qed.

Lemma all_paired_exec now c st :
  match c with
  | Set_ key _ _ => Text.ends_with EXPIRE (getFullKey key st) = false
  | _ => True
  end →
  all_paired st → all_paired (exec Date_parse now c st).
Proof.
  intros Hc H. destruct c as [o|k v e|k|k|k|d|d|]; simpl.
  - done.
  - by apply all_paired_set.
  - by apply all_paired_get.
  - by apply all_paired_remove.
  - unfold getAndRemove. pose proof (all_paired_get k now st H) as Hg.
    destruct (get Date_parse k now st) as [[res|] st']; simpl in *; [|done].
    by apply all_paired_remove.
  - done.
  - by apply all_paired_clearDomain.
  - by apply all_paired_bust.
Qed.

Lemma all_paired_run calls st :
  plain_keys Date_parse calls st → all_paired st →
  all_paired (run Date_parse calls st).
Proof.
  revert st. induction calls as [|[now c] calls IH]; intros st Hk H; simpl; [done|].
  destruct Hk as [Hc Hk]. apply IH; [done|]. by apply all_paired_exec.
Qed.

(** C4 (as amended). Starting from empty storages, after any sequence of
    calls of the public operations in which no [set] is given a key whose
    full key ends with [_expiration_date], an expiration key is present
    only if the value it belongs to is present, whatever the domain and
    the logical key, in the selected storage and in both storages. *)
Theorem expiration_key_implies_value calls :
  plain_keys Date_parse calls initial →
  ∀ st' key,
    (is_Some (getItem (getExpirationKey key st') (run Date_parse calls initial)) →
     is_Some (getItem (getFullKey key st') (run Date_parse calls initial)))
    ∧ (is_Some (localStorage (run Date_parse calls initial) !! getExpirationKey key st') →
       is_Some (localStorage (run Date_parse calls initial) !! getFullKey key st'))
    ∧ (is_Some (sessionStorage (run Date_parse calls initial) !! getExpirationKey key st') →
       is_Some (sessionStorage (run Date_parse calls initial) !! getFullKey key st')).
Proof.
  intros Hk st' key.
  assert (H : all_paired (run Date_parse calls initial)).
  { apply all_paired_run; [done|]. split; apply paired_empty. }
  pose proof (all_paired_items _ H) as Hi. destruct H as [Hl Hs].
  unfold getItem, getExpirationKey.
  split; [|split]; intros Hin; [by apply Hi|by apply Hl|by apply Hs].
Qed.

End PairedFacts.

(** ** [JSON.parse] after [JSON.stringify] *)

Section JSONFacts.
Import Text.

(** Induction over values, with the hypothesis for every item of an
    array and every field of an object. *)
Lemma value_induction (P : value → Prop) :
  P VNull → (∀ b, P (VBool b)) → (∀ n, P (VNum n)) → (∀ s, P (VStr s)) →
  (∀ items, Forall P items → P (VArr items)) →
  (∀ fields, Forall (fun kv => P kv.2) fields → P (VObj fields)) →
  ∀ v, P v.
Proof.
  intros Hnull Hbool Hnum Hstr Harr Hobj.
  fix IH 1. intros [|b|n|s|items|fields].
  - apply Hnull.
  - apply Hbool.
  - apply Hnum.
  - apply Hstr.
  - apply Harr. induction items as [|v items IHitems]; constructor.
    + apply IH.
    + apply IHitems.
  - apply Hobj. induction fields as [|[k v] fields IHfields]; constructor.
    + apply IH.
    + apply IHfields.
Qed.

(** *** Strings *)

Lemma string_body_escape c r :
  JSON.string_body (JSON.escape c +:+ r)
  = JSON.prepend (String c EmptyString) (JSON.string_body r).
Proof. destruct c as [[] [] [] [] [] [] [] []]; reflexivity. Qed.

Lemma string_body_escape_all s rest :
  JSON.string_body (JSON.escape_all s +:+ String Text.quote rest) = Some (s, rest).
Proof.
  induction s as [|c s IH].
  - reflexivity.
  - simpl. rewrite app_assoc, string_body_escape, IH. reflexivity.
Qed.

Lemma quote_app s rest :
  JSON.quote s +:+ rest
  = String Text.quote (JSON.escape_all s +:+ String Text.quote rest).
Proof. unfold JSON.quote. by rewrite app_cons, app_assoc. Qed.

(** *** Numbers *)

Lemma delimited_cases rest :
  delimited rest = true →
  rest = EmptyString ∨ ∃ c r, rest = String c r ∧ c ∈ [","; "]"; "}"]%char.
Proof.
  destruct rest as [|c r]; [by left|]. simpl.
  rewrite !orb_true_iff, !Ascii.eqb_eq. intros H. right. exists c, r.
  split; [done|]. destruct H as [[->| ->]| ->];
    repeat (first [apply list_elem_of_here | apply list_elem_of_further]).
Qed.

Lemma unsigned_number_digits neg n rest :
  delimited rest = true →
  JSON.unsigned_number neg (digits n +:+ rest)
  = Some (VNum (Number.of_decimal (if neg then - Z.of_N n else Z.of_N n) 0), rest).
Proof.
  intros Hrest. unfold JSON.unsigned_number.
  assert (head_is is_digit rest = false) as Hhead.
  { apply delimited_cases in Hrest as [->|(c & r & -> & Hc)]; [done|].
    each_case Hc reflexivity. }
  rewrite (span_app _ _ _ (all_digits n) Hhead).
  assert (is_empty (digits n) || JSON.leading_zero (digits n) = false) as ->.
  { destruct (digits_head n) as [->|(c & r & -> & Hc & Hne)]; [done|].
    apply is_digit_cases in Hc.
    each_case Hc done. }
  assert (Z.of_N (digits_value (digits n +:+ EmptyString)) = Z.of_N n) as Hval.
  { by rewrite app_nil_r, digits_value_digits. }
  apply delimited_cases in Hrest as [->|(c & r & -> & Hc)].
  - cbn -[Number.of_decimal digits]. by rewrite Hval.
  - each_case Hc (cbn -[Number.of_decimal digits]; by rewrite Hval).
Qed.

Lemma number_token_integer z rest :
  Z.abs z < 10 ^ 21 → delimited rest = true →
  JSON.number_token (Number.to_string (Int z) +:+ rest) = Some (VNum (Int z), rest).
Proof.
  intros Hz Hrest. unfold Number.to_string, Number.sign.
  destruct (z <? 0) eqn:Hneg.
  - apply Z.ltb_lt in Hneg. rewrite app_assoc, app_cons, app_nil_l.
    cbn [JSON.number_token]. rewrite unsigned_number_digits by done.
    rewrite N2Z.inj_abs_N, Z.abs_neq, Z.opp_involutive by lia.
    by rewrite of_decimal_integer.
  - apply Z.ltb_ge in Hneg. rewrite app_nil_l.
    assert (JSON.number_token (digits (Z.abs_N z) +:+ rest)
            = JSON.unsigned_number false (digits (Z.abs_N z) +:+ rest)) as ->.
    { destruct (digits_head (Z.abs_N z)) as [->|(c & r & -> & Hc & _)]; [done|].
      apply is_digit_cases in Hc.
      each_case Hc done. }
    rewrite unsigned_number_digits by done.
    rewrite N2Z.inj_abs_N, Z.abs_eq by lia.
    by rewrite of_decimal_integer.
Qed.

(** *** Fractions and exponents *)

Lemma strip_zeros_odd fuel m e :
  m mod 10 ≠ 0 → Number.strip_zeros fuel m e = (m, e).
Proof.
  intros Hm. destruct fuel as [|fuel]; [done|]. simpl.
  by rewrite (proj2 (Z.eqb_neq _ _) Hm).
Qed.

Lemma of_decimal_canonical m e :
  canonical (Dec m e) = true → Number.of_decimal m e = Dec m e.
Proof.
  unfold canonical. intros [Hm He]%andb_true_iff.
  apply negb_true_iff, Z.eqb_neq in Hm.
  unfold Number.of_decimal. rewrite strip_zeros_odd by done.
  destruct (0 <=? e).
  - apply andb_true_iff in He as [H1 H2]. apply Z.leb_le in H1.
    rewrite (proj2 (Z.ltb_ge _ _) H1).
    by rewrite (proj2 (Z.leb_gt _ _) (proj1 (Z.ltb_lt _ _) H2)).
  - apply Z.ltb_lt in He. by rewrite (proj2 (Z.leb_gt _ _) He).
Qed.

Lemma length_string_of_uint d :
  String.length (NilEmpty.string_of_uint d) = Decimal.nb_digits d.
Proof. induction d; simpl; by rewrite ?IHd. Qed.

Lemma of_lu_bound d :
  (DecimalPos.Unsigned.of_lu d < 10 ^ N.of_nat (Decimal.nb_digits d))%N.
Proof.
  induction d; cbn [DecimalPos.Unsigned.of_lu Decimal.nb_digits];
    rewrite ?Nat2N.inj_succ, ?N.pow_succ_r'; lia.
Qed.

Lemma digits_bound n : Z.of_N n < 10 ^ Z.of_nat (String.length (digits n)).
Proof.
  unfold digits. rewrite length_string_of_uint.
  pose proof (of_lu_bound (Decimal.rev (N.to_uint n))) as H.
  rewrite <- DecimalPos.Unsigned.of_uint_alt, nb_digits_rev in H.
  change (Pos.of_uint (N.to_uint n)) with (N.of_uint (N.to_uint n)) in H.
  rewrite DecimalN.Unsigned.of_to in H.
  apply N2Z.inj_lt in H. rewrite N2Z.inj_pow in H.
  by rewrite nat_N_Z in H.
Qed.

Lemma all_app p a b : all p (a +:+ b) = all p a && all p b.
Proof.
  induction a as [|c a IH]; [by rewrite app_nil_l|].
  rewrite app_cons. simpl. by rewrite IH, andb_assoc.
Qed.

Lemma all_digits_zeros j : all is_digit (repeat_char "0" j) = true.
Proof. induction j as [|j IH]; [done|]. simpl. exact IH. Qed.

Lemma length_repeat_char c j : String.length (repeat_char c j) = j.
Proof. induction j as [|j IH]; [done|]. simpl. by rewrite IH. Qed.

Lemma digits_value_zero s : digits_value (String "0" s) = digits_value s.
Proof. unfold digits_value. simpl. by destruct (NilEmpty.uint_of_string s). Qed.

Lemma digits_value_zeros j s : digits_value (repeat_char "0" j +:+ s) = digits_value s.
Proof.
  induction j as [|j IH]; [by rewrite app_nil_l|].
  cbn [repeat_char]. by rewrite app_cons, digits_value_zero.
Qed.

Lemma digits_nonzero n :
  n ≠ 0%N → ∃ c r, digits n = String c r ∧ is_digit c = true ∧ c ≠ "0"%char.
Proof.
  intros Hn. destruct (digits_head n) as [E|H]; [|done].
  exfalso. apply Hn. rewrite <- (digits_value_digits n), E. reflexivity.
Qed.

Lemma substring_all s : String.substring 0 (String.length s) s = s.
Proof. induction s as [|c s IH]; [done|]. simpl. by rewrite IH. Qed.

Lemma substring_split s n :
  (n ≤ String.length s)%nat →
  ∃ a b, s = a +:+ b ∧ String.length a = n
         ∧ String.substring 0 n s = a
         ∧ String.substring n (String.length s - n) s = b.
Proof.
  revert s. induction n as [|n IH]; intros s Hn.
  - exists EmptyString, s. rewrite app_nil_l, Nat.sub_0_r, substring_all.
    by destruct s.
  - destruct s as [|c s]; [simpl in Hn; lia|]. simpl in Hn.
    destruct (IH s) as (a & b & Hs & Ha & H1 & H2); [lia|].
    exists (String c a), b. rewrite app_cons, <- Hs. simpl. by rewrite Ha, H1, H2.
Qed.

(** What follows a number in a text is no part of a number. *)
Lemma delimited_tail rest :
  delimited rest = true →
  head_is is_digit rest = false
  ∧ head_is (Ascii.eqb ".") rest = false
  ∧ JSON.exponent rest = Some (0, rest).
Proof.
  intros [->|(c & r & -> & Hc)]%delimited_cases; [done|].
  each_case Hc done.
Qed.

Lemma fraction_none tail :
  head_is (Ascii.eqb ".") tail = false → JSON.fraction tail = Some (EmptyString, tail).
Proof.
  destruct tail as [|c r]; [done|]. simpl.
  destruct c as [[] [] [] [] [] [] [] []]; simpl; done.
Qed.

Lemma fraction_digits fp tail :
  all is_digit fp = true → fp ≠ EmptyString → head_is is_digit tail = false →
  JSON.fraction ("." +:+ fp +:+ tail) = Some (fp, tail).
Proof.
  intros Hfp Hne Htail. rewrite app_cons, app_nil_l. cbn [JSON.fraction].
  rewrite span_app by done. by destruct fp.
Qed.

(** The text of an exponent, as [Number::toString] writes it. *)
Lemma exponent_text x rest :
  head_is is_digit rest = false →
  JSON.exponent ((if x <? 0 then "e-" else "e+") +:+ digits (Z.abs_N x) +:+ rest)
  = Some (x, rest).
Proof.
  intros Hrest.
  assert (Hd : is_empty (digits (Z.abs_N x)) = false).
  { destruct (digits_head (Z.abs_N x)) as [->|(c & r & -> & _)]; done. }
  destruct (x <? 0) eqn:Hx.
  - apply Z.ltb_lt in Hx. rewrite !app_cons, app_nil_l. cbn [JSON.exponent].
    change (Ascii.eqb "e" "e" || Ascii.eqb "e" "E") with true. cbn match.
    cbn [Number.signed]. rewrite span_app by (done || apply all_digits).
    rewrite Hd, digits_value_digits, N2Z.inj_abs_N. do 2 f_equal. lia.
  - apply Z.ltb_ge in Hx. rewrite !app_cons, app_nil_l. cbn [JSON.exponent].
    change (Ascii.eqb "e" "e" || Ascii.eqb "e" "E") with true. cbn match.
    cbn [Number.signed]. rewrite span_app by (done || apply all_digits).
    rewrite Hd, digits_value_digits, N2Z.inj_abs_N. do 2 f_equal. lia.
Qed.

Lemma exponent_text_head x rest :
  head_is is_digit ((if x <? 0 then "e-" else "e+") +:+ digits (Z.abs_N x) +:+ rest) = false
  ∧ head_is (Ascii.eqb ".")
      ((if x <? 0 then "e-" else "e+") +:+ digits (Z.abs_N x) +:+ rest) = false.
Proof. destruct (x <? 0); by rewrite !app_cons. Qed.

(** A number token from its parts: an integer part, a fraction or none,
    and what [exponent] reads. *)
Lemma unsigned_number_fraction neg ip fp tail x rest :
  all is_digit ip = true →
  is_empty ip || JSON.leading_zero ip = false →
  all is_digit fp = true → fp ≠ EmptyString →
  head_is is_digit tail = false →
  JSON.exponent tail = Some (x, rest) →
  JSON.unsigned_number neg (ip +:+ "." +:+ fp +:+ tail)
  = Some (VNum (Number.of_decimal
                  (if neg then - Z.of_N (digits_value (ip +:+ fp))
                   else Z.of_N (digits_value (ip +:+ fp)))
                  (x - Z.of_nat (String.length fp))), rest).
Proof.
  intros Hip Hlead Hfp Hne Htail Hx. unfold JSON.unsigned_number.
  rewrite span_app by (done || by rewrite app_cons).
  rewrite Hlead, fraction_digits by done. by rewrite Hx.
Qed.

Lemma unsigned_number_integer neg ip tail x rest :
  all is_digit ip = true →
  is_empty ip || JSON.leading_zero ip = false →
  head_is is_digit tail = false →
  head_is (Ascii.eqb ".") tail = false →
  JSON.exponent tail = Some (x, rest) →
  JSON.unsigned_number neg (ip +:+ tail)
  = Some (VNum (Number.of_decimal
                  (if neg then - Z.of_N (digits_value ip) else Z.of_N (digits_value ip))
                  x), rest).
Proof.
  intros Hip Hlead Htail Hdot Hx. unfold JSON.unsigned_number.
  rewrite span_app by done. rewrite Hlead, fraction_none by done. rewrite Hx.
  cbn [String.length]. by rewrite app_nil_r, Z.sub_0_r.
Qed.

Lemma single_digit_leading c r :
  c ≠ "0"%char → is_empty (String c r) || JSON.leading_zero (String c r) = false.
Proof.
  intros Hc. simpl. destruct c as [[] [] [] [] [] [] [] []]; done.
Qed.

(** The digits of a number that is not zero, laid out with an exponent
    that does not leave a plain integer, are read back as that number
    with that exponent. *)
Lemma unsigned_number_layout neg n e rest :
  n ≠ 0%N →
  ¬ (0 ≤ e ∧ e + Z.of_nat (String.length (digits n)) ≤ 21) →
  delimited rest = true →
  JSON.unsigned_number neg (Number.layout (digits n) e +:+ rest)
  = Some (VNum (Number.of_decimal (if neg then - Z.of_N n else Z.of_N n) e), rest).
Proof.
  intros Hn Hplain Hrest.
  destruct (digits_nonzero n Hn) as (c & r & Hs & Hc & Hc0).
  pose proof (all_digits n) as Hall.
  pose proof (digits_value_digits n) as Hval.
  destruct (delimited_tail rest Hrest) as (Hd & Hdot & Hex).
  unfold Number.layout.
  set (s := digits n) in *. set (k := Z.of_nat (String.length s)) in *.
  destruct ((k <=? e + k) && (e + k <=? 21)) eqn:HA.
  { apply andb_true_iff in HA as [H1%Z.leb_le H2%Z.leb_le]. exfalso. apply Hplain. lia. }
  destruct ((0 <? e + k) && (e + k <=? 21)) eqn:HB.
  { apply andb_true_iff in HB as [H1%Z.ltb_lt H2%Z.leb_le].
    assert (He : e < 0).
    { apply andb_false_iff in HA as [H%Z.leb_gt|H%Z.leb_gt]; lia. }
    destruct (substring_split s (Z.to_nat (e + k))) as (a & b & Hab & Ha & E1 & E2);
      [unfold k in *; lia|].
    assert (Z.to_nat (k - (e + k)) = (String.length s - Z.to_nat (e + k))%nat) as ->
      by (unfold k; lia).
    rewrite E1, E2, !app_assoc.
    rewrite Hab, all_app in Hall. apply andb_true_iff in Hall as [Hall1 Hall2].
    assert (Hlen : String.length s = (String.length a + String.length b)%nat)
      by (by rewrite Hab, app_length).
    rewrite (unsigned_number_fraction neg a b rest 0 rest); try done.
    - rewrite <- Hab, Hval. do 3 f_equal. f_equal. unfold k in *. lia.
    - rewrite Hs in Hab. destruct a as [|c' a']; [simpl in Ha; lia|].
      rewrite app_cons in Hab. injection Hab as <- _. by apply single_digit_leading.
    - intros ->. simpl in Hlen. unfold k in *. lia. }
  destruct ((-6 <? e + k) && (e + k <=? 0)) eqn:HC.
  { apply andb_true_iff in HC as [H1%Z.ltb_lt H2%Z.leb_le].
    rewrite !app_cons, app_nil_l, !app_assoc.
    change (String "0" (String "." ?x)) with ("0" +:+ "." +:+ x).
    rewrite <- (app_assoc (repeat_char "0" _) s rest).
    rewrite (unsigned_number_fraction neg "0" _ rest 0 rest); try done.
    - rewrite app_cons, app_nil_l, digits_value_zero, digits_value_zeros, Hval.
      rewrite app_length, length_repeat_char. do 3 f_equal. f_equal. unfold k in *. lia.
    - by rewrite all_app, all_digits_zeros.
    - rewrite Hs. by destruct (repeat_char "0" _). }
  rewrite Hs in *. destruct r as [|c2 r].
  - rewrite app_cons.
    change (String c ?x) with (String c EmptyString +:+ x).
    destruct (exponent_text_head (e + k - 1) rest) as [T1 T2].
    rewrite app_assoc.
    rewrite (unsigned_number_integer neg (String c EmptyString) _ (e + k - 1) rest);
      try done.
    + rewrite Hval. do 3 f_equal. f_equal. unfold k. rewrite Hs. simpl. lia.
    + by apply single_digit_leading.
    + by apply exponent_text.
  - rewrite app_cons, !app_assoc.
    change (String c ?x) with (String c EmptyString +:+ x).
    destruct (exponent_text_head (e + k - 1) rest) as [T1 T2].
    simpl in Hall. apply andb_true_iff in Hall as [_ Hall].
    rewrite (unsigned_number_fraction neg (String c EmptyString) (String c2 r) _
               (e + k - 1) rest); try done.
    + rewrite app_cons, app_nil_l, Hval. do 3 f_equal. f_equal. unfold k. rewrite Hs.
      simpl String.length. lia.
    + simpl. by rewrite Hc.
    + by apply single_digit_leading.
    + by apply exponent_text.
Qed.


(** A canonical number comes with a mantissa that is not zero and a text
    that is not that of a plain integer. *)
Lemma canonical_layout m e :
  canonical (Dec m e) = true →
  Z.abs_N m ≠ 0%N
  ∧ ¬ (0 ≤ e ∧ e + Z.of_nat (String.length (digits (Z.abs_N m))) ≤ 21).
Proof.
  unfold canonical. intros [Hm He]%andb_true_iff.
  apply negb_true_iff, Z.eqb_neq in Hm.
  assert (m ≠ 0) as Hm0 by (by intros ->).
  split; [lia|]. intros [H0 H21].
  rewrite (proj2 (Z.leb_le _ _) H0) in He.
  apply andb_true_iff in He as [Hlow%Z.leb_le _].
  pose proof (digits_bound (Z.abs_N m)) as Hb. rewrite N2Z.inj_abs_N in Hb.
  set (k := Z.of_nat (String.length (digits (Z.abs_N m)))) in *.
  assert (0 ≤ k) by (unfold k; lia).
  assert (0 < 10 ^ e) by (apply Z.pow_pos_nonneg; lia).
  assert (10 ^ (k + e) ≤ 10 ^ 21) by (apply Z.pow_le_mono_r; lia).
  rewrite Z.pow_add_r in * by lia.
  rewrite Z.abs_mul, (Z.abs_eq (10 ^ e)) in Hlow by lia. nia.
Qed.

(** A token is a number token only behind a digit or a minus sign. *)
Lemma number_token_unsigned s r :
  JSON.unsigned_number false s = Some r → JSON.number_token s = Some r.
Proof.
  destruct s as [|c s]; [done|].
  destruct c as [[] [] [] [] [] [] [] []]; try done.
Qed.

Lemma number_token_head c s r :
  JSON.number_token (String c s) = Some r → is_digit c || Ascii.eqb c "-" = true.
Proof.
  destruct c as [[] [] [] [] [] [] [] []]; try done.
Qed.

Lemma number_token_decimal m e rest :
  canonical (Dec m e) = true → delimited rest = true →
  JSON.number_token (Number.to_string (Dec m e) +:+ rest) = Some (VNum (Dec m e), rest).
Proof.
  intros Hcan Hrest. destruct (canonical_layout m e Hcan) as [Hm Hplain].
  unfold Number.to_string, Number.sign. destruct (m <? 0) eqn:Hneg.
  - apply Z.ltb_lt in Hneg. rewrite app_assoc, app_cons, app_nil_l.
    cbn [JSON.number_token]. rewrite unsigned_number_layout by done.
    rewrite N2Z.inj_abs_N, Z.abs_neq, Z.opp_involutive by lia.
    by rewrite of_decimal_canonical.
  - apply Z.ltb_ge in Hneg. rewrite app_nil_l.
    apply number_token_unsigned. rewrite unsigned_number_layout by done.
    rewrite N2Z.inj_abs_N, Z.abs_eq by lia.
    by rewrite of_decimal_canonical.
Qed.

(** The text of a canonical number is a number token. *)
Lemma number_token_canonical n rest :
  canonical n = true → delimited rest = true →
  JSON.number_token (Number.to_string n +:+ rest) = Some (VNum n, rest).
Proof.
  destruct n as [| |z|m e]; try done.
  - intros Hz%Z.ltb_lt. by apply number_token_integer.
  - apply number_token_decimal.
Qed.

(** *** Values *)

Lemma digit_opens_value c : is_digit c = true → opens_value c = true.
Proof.
  intros Hc%is_digit_cases.
  each_case Hc reflexivity.
Qed.

Lemma stringify_head v :
  serializable v = true →
  ∃ c r, JSON.stringify v = String c r ∧ opens_value c = true.
Proof.
  destruct v as [|[]|n|s|items|fields]; simpl; try done;
    try (intros _; by eexists _, _).
  intros Hn. pose proof (number_token_canonical n EmptyString Hn eq_refl) as Htoken.
  rewrite app_nil_r in Htoken.
  assert (JSON.stringify_number n = Number.to_string n) as -> by by destruct n.
  destruct (Number.to_string n) as [|c r]; [done|].
  exists c, r. split; [done|].
  apply number_token_head in Htoken. apply orb_true_iff in Htoken as [Hc|Hc].
  - by apply digit_opens_value.
  - apply Ascii.eqb_eq in Hc. by subst c.
Qed.

Lemma skip_ws_opens c r : opens_value c = true → JSON.skip_ws (String c r) = String c r.
Proof.
  unfold opens_value. intros [[Hc _]%andb_true_iff _]%andb_true_iff.
  simpl. by destruct (JSON.is_ws c).
Qed.

Lemma skip_ws_stringify v rest :
  serializable v = true →
  JSON.skip_ws (JSON.stringify v +:+ rest) = JSON.stringify v +:+ rest.
Proof.
  intros (c & r & -> & Hc)%stringify_head. rewrite app_cons. by apply skip_ws_opens.
Qed.

Lemma value_literal n c r :
  is_digit c || Ascii.eqb c "-" = true →
  JSON.value_ (S n) (String c r) = JSON.number_token (String c r).
Proof.
  destruct c as [[] [] [] [] [] [] [] []]; simpl; try discriminate; reflexivity.
Qed.

Lemma value_number fuel n rest :
  canonical n = true → delimited rest = true →
  JSON.value_ (S fuel) (Number.to_string n +:+ rest) = Some (VNum n, rest).
Proof.
  intros Hn Hrest. rewrite <- (number_token_canonical n rest Hn Hrest).
  pose proof (number_token_canonical n rest Hn Hrest) as Htoken.
  destruct (Number.to_string n +:+ rest) as [|c r]; [done|].
  apply value_literal. by apply number_token_head in Htoken.
Qed.

Lemma join_cons sep x y rest :
  join sep (x :: y :: rest) = x +:+ sep +:+ join sep (y :: rest).
Proof. reflexivity. Qed.

Lemma elements_join items :
  Forall parses_back items →
  forallb serializable items = true →
  items ≠ [] →
  ∀ fuel rest,
    (2 * String.length (join "," (map JSON.stringify items)) + 1 ≤ fuel)%nat →
    JSON.elements fuel (join "," (map JSON.stringify items) +:+ String "]" rest)
    = Some (items, rest).
Proof.
  induction 1 as [|v items Hv Hitems IH]; [done|].
  intros Hser _ fuel rest Hfuel. simpl in Hser.
  apply andb_true_iff in Hser as [Hser Hsers].
  destruct fuel as [|fuel]; [lia|]. cbn [JSON.elements].
  destruct items as [|v' items].
  - simpl in *. rewrite (Hv Hser) by (done || lia). reflexivity.
  - cbn [map] in Hfuel |- *. rewrite join_cons in Hfuel |- *.
    fold (map JSON.stringify (v' :: items)) in Hfuel |- *.
    assert (Hser' : serializable v' = true).
    { simpl in Hsers. by apply andb_true_iff in Hsers as [? _]. }
    assert (JSON.skip_ws (join "," (map JSON.stringify (v' :: items))
                          +:+ String "]" rest)
            = join "," (map JSON.stringify (v' :: items)) +:+ String "]" rest) as Hws.
    { destruct (stringify_head v' Hser') as (c & r & E & Hc).
      cbn [map]. destruct (map JSON.stringify items); cbn [join];
        rewrite E, ?app_cons; by apply skip_ws_opens. }
    set (J := join "," (map JSON.stringify (v' :: items))) in *.
    change (join "," (JSON.stringify v' :: map JSON.stringify items))
      with J in Hfuel |- *.
    rewrite !app_length in Hfuel. cbn [String.length] in Hfuel.
    rewrite !app_assoc, app_cons, app_nil_l.
    rewrite (Hv Hser) by (done || lia).
    cbn [JSON.skip_ws JSON.is_ws].
    change (Ascii.eqb "," ",") with true. cbn match.
    rewrite Hws, IH by (done || lia). reflexivity.
Qed.

Lemma define_fresh k v (acc : list (string * value)) :
  k ∉ map fst acc → JSON.define k v acc = acc ++ [(k, v)].
Proof.
  induction acc as [|[k' v'] acc IH]; [done|].
  simpl. intros Hk. destruct (String.eqb_spec k' k) as [->|Hne].
  - exfalso. apply Hk. apply list_elem_of_here.
  - rewrite IH; [done|]. intros Hin. apply Hk. by apply list_elem_of_further.
Qed.

Lemma skip_ws_delimited tail : delimited tail = true → JSON.skip_ws tail = tail.
Proof.
  intros [->|(c & r & -> & Hc)]%delimited_cases; [done|].
  each_case Hc reflexivity.
Qed.

(** One member, then whatever follows it. *)
Lemma members_step n acc k v tail :
  serializable v = true → parses_back v →
  (2 * String.length (JSON.stringify v) ≤ n)%nat →
  delimited tail = true →
  k ∉ map fst acc →
  JSON.members (S n) acc ((JSON.quote k +:+ ":" +:+ JSON.stringify v) +:+ tail)
  = match tail with
    | EmptyString => None
    | String c r =>
        if Ascii.eqb c "," then JSON.members n (acc ++ [(k, v)]) (JSON.skip_ws r)
        else if Ascii.eqb c "}" then Some (acc ++ [(k, v)], r)
        else None
    end.
Proof.
  intros Hser Hv Hn Htail Hk.
  rewrite app_assoc, quote_app. cbn [JSON.members].
  change (negb (Ascii.eqb Text.quote Text.quote)) with false. cbn match.
  rewrite string_body_escape_all.
  rewrite app_assoc, app_cons, app_nil_l.
  cbn [JSON.skip_ws JSON.is_ws].
  change (negb (Ascii.eqb ":" ":")) with false. cbn match.
  rewrite skip_ws_stringify, (Hv Hser) by done.
  rewrite skip_ws_delimited, define_fresh by done. reflexivity.
Qed.

Lemma members_join fields :
  Forall (fun kv => parses_back kv.2) fields →
  forallb (fun kv => serializable kv.2) fields = true →
  fields ≠ [] →
  ∀ acc fuel rest,
    NoDup (map fst (acc ++ fields)) →
    (2 * String.length
           (join "," (map (fun kv => JSON.quote kv.1 +:+ ":" +:+ JSON.stringify kv.2)
                        fields)) + 1 ≤ fuel)%nat →
    JSON.members fuel acc
      (join "," (map (fun kv => JSON.quote kv.1 +:+ ":" +:+ JSON.stringify kv.2) fields)
       +:+ String "}" rest)
    = Some (acc ++ fields, rest).
Proof.
  induction 1 as [|[k v] fields Hv Hfields IH]; [done|].
  intros Hser _ acc fuel rest Hdup Hfuel. simpl in Hser, Hv.
  apply andb_true_iff in Hser as [Hser Hsers].
  assert (Hk : k ∉ map fst acc).
  { rewrite map_app in Hdup. apply NoDup_app in Hdup as (_ & Hdup & _).
    intros Hin. apply (Hdup k Hin). apply list_elem_of_here. }
  destruct fuel as [|fuel]; [lia|].
  destruct fields as [|kv' fields].
  - cbn [map join fst snd] in Hfuel |- *.
    rewrite !app_length in Hfuel.
    rewrite members_step by (done || lia). reflexivity.
  - cbn [map fst snd] in IH, Hfuel |- *. rewrite join_cons in Hfuel |- *.
    assert (∀ J' : string,
              JSON.skip_ws ((JSON.quote kv'.1 +:+ J') +:+ String "}" rest)
              = (JSON.quote kv'.1 +:+ J') +:+ String "}" rest) as Hws.
    { intros J'. unfold JSON.quote. rewrite !app_cons. reflexivity. }
    assert (∃ J', join ","
                   ((JSON.quote kv'.1 +:+ ":" +:+ JSON.stringify kv'.2)
                    :: map (fun kv => JSON.quote kv.1 +:+ ":" +:+ JSON.stringify kv.2)
                         fields)
                 = JSON.quote kv'.1 +:+ J') as [J' HJ'].
    { destruct (map _ fields); cbn [join]; rewrite ?app_assoc; by eexists. }
    specialize (Hws J'). rewrite <- HJ' in Hws. clear HJ' J'.
    set (J := join "," (_ :: map _ fields)) in *.
    rewrite !app_length in Hfuel. cbn [String.length] in Hfuel.
    rewrite (app_assoc _ ("," +:+ J)).
    change (("," +:+ J) +:+ String "}" rest) with (String "," (J +:+ String "}" rest)).
    rewrite members_step by (done || lia).
    change (Ascii.eqb "," ",") with true. cbn match.
    rewrite Hws, IH.
    + by rewrite <- List.app_assoc.
    + done.
    + done.
    + by rewrite <- List.app_assoc.
    + lia.
Qed.

(** Every serializable value is parsed back from its JSON text. *)
Lemma value_stringify v : parses_back v.
Proof.
  induction v as [|b|n|s|items IH|fields IH] using value_induction;
    intros Hser fuel rest Hfuel Hrest.
  - destruct fuel as [|fuel]; [simpl in Hfuel; lia|]. reflexivity.
  - destruct fuel as [|fuel]; [destruct b; simpl in Hfuel; lia|].
    destruct b; reflexivity.
  - destruct fuel as [|fuel].
    { destruct (stringify_head _ Hser) as (c & r & E & _).
      rewrite E in Hfuel. simpl in Hfuel. lia. }
    cbn [JSON.stringify]. simpl in Hser.
    assert (JSON.stringify_number n = Number.to_string n) as -> by by destruct n.
    by apply value_number.
  - destruct fuel as [|fuel]; [simpl in Hfuel; lia|].
    cbn [JSON.stringify]. rewrite quote_app. cbn [JSON.value_].
    change (Ascii.eqb Text.quote "[") with false.
    change (Ascii.eqb Text.quote "{") with false.
    change (Ascii.eqb Text.quote Text.quote) with true. cbn match.
    by rewrite string_body_escape_all.
  - destruct fuel as [|fuel]; [simpl in Hfuel; lia|].
    cbn [JSON.stringify serializable] in Hfuel, Hser |- *.
    rewrite !app_length in Hfuel. cbn [String.length] in Hfuel.
    rewrite !app_assoc.
    change ("[" +:+ ?x +:+ "]" +:+ rest) with (String "[" (x +:+ String "]" rest)).
    cbn [JSON.value_]. change (Ascii.eqb "[" "[") with true. cbn match.
    destruct items as [|v items]; [reflexivity|].
    destruct (stringify_head v) as (c & r & E & Hc).
    { simpl in Hser. by apply andb_true_iff in Hser as [? _]. }
    assert (∃ r', join "," (map JSON.stringify (v :: items)) +:+ String "]" rest
                  = String c r') as [r' Hr'].
    { cbn [map]. destruct (map JSON.stringify items); cbn [join];
        rewrite E, ?app_cons; by eexists. }
    rewrite Hr', skip_ws_opens by done.
    assert (Ascii.eqb c "]" = false) as ->.
    { unfold opens_value in Hc. apply andb_true_iff in Hc as [[_ H1]%andb_true_iff _].
      by destruct (Ascii.eqb c "]"). }
    rewrite <- Hr', elements_join by (done || lia). reflexivity.
  - destruct fuel as [|fuel]; [simpl in Hfuel; lia|].
    cbn [JSON.stringify serializable] in Hfuel, Hser |- *.
    apply andb_true_iff in Hser as [Hdup%bool_decide_eq_true Hser].
    rewrite !app_length in Hfuel. cbn [String.length] in Hfuel.
    rewrite !app_assoc.
    change ("{" +:+ ?x +:+ "}" +:+ rest) with (String "{" (x +:+ String "}" rest)).
    cbn [JSON.value_].
    change (Ascii.eqb "{" "[") with false. change (Ascii.eqb "{" "{") with true.
    cbn match.
    destruct fields as [|[k v] fields]; [reflexivity|].
    assert (∃ r',
               join "," (map (fun kv => JSON.quote kv.1 +:+ ":" +:+ JSON.stringify kv.2)
                           ((k, v) :: fields)) +:+ String "}" rest
               = String Text.quote r') as [r' Hr'].
    { cbn [map fst snd]. unfold JSON.quote.
      destruct (map _ fields); cbn [join]; rewrite !app_cons; by eexists. }
    rewrite Hr'. cbn [JSON.skip_ws].
    change (JSON.is_ws Text.quote) with false.
    change (Ascii.eqb Text.quote "}") with false. cbn match.
    rewrite <- Hr', (members_join _ IH) by (done || lia). reflexivity.
Qed.

Lemma parse_stringify v :
  serializable v = true → JSON.parse (JSON.stringify v) = Some v.
Proof.
  intros Hser. unfold JSON.parse.
  rewrite <- (app_nil_r (JSON.stringify v)) at 2.
  rewrite skip_ws_stringify by done.
  rewrite (value_stringify v Hser) by (done || lia). reflexivity.
Qed.

End JSONFacts.

(** ** [get] after [set] *)

Section RoundTrip.
Variable Date_parse : string → option Z.

Lemma setExpiration_lookup_other key e now st k :
  k ≠ getExpirationKey key st →
  getItem k (setExpiration key e now st) = getItem k st.
Proof.
  intros Hk.
  destruct (setExpiration_cases key e now st) as [[t ->]|[->| ->]]; [|done..].
  unfold getItem, setItem. rewrite items_with_items. by apply lookup_insert_ne.
Qed.

Lemma set_stores_text key v e now st :
  key ≠ EmptyString →
  getItem (getFullKey key st) (set key v e now st) = Some (stored_text v).
Proof.
  intros Hkey. unfold set. destruct key; [done|]. cbn [Text.is_empty].
  set (F := getFullKey _ st). set (st1 := setItem F (stored_text v) st).
  assert (H1 : getItem F st1 = Some (stored_text v)).
  { unfold st1, getItem, setItem. rewrite items_with_items. apply lookup_insert_eq. }
  destruct e as [e|]; [|done]. destruct (Text.is_empty e); [done|].
  rewrite setExpiration_lookup_other; [done|].
  unfold getExpirationKey.
  rewrite (getFullKey_DOMAIN _ st) by apply DOMAIN_with_items.
  apply app_neq. done.
Qed.

(** What [get] makes of the text [set] stored. *)
Lemma stored_text_reads_back v :
  serializable v = true → json_text v = false →
  match JSON.parse (stored_text v) with
  | Some v' => v'
  | None => VStr (stored_text v)
  end = v.
Proof.
  intros Hser Htext. destruct v as [|b|n|s|items|fields].
  - reflexivity.
  - change (stored_text (VBool b)) with (JSON.stringify (VBool b)).
    by rewrite parse_stringify.
  - assert (stored_text (VNum n) = JSON.stringify (VNum n)) as ->
      by (by destruct n).
    by rewrite parse_stringify.
  - unfold stored_text. simpl in *. by destruct (JSON.parse s).
  - change (stored_text (VArr items)) with (JSON.stringify (VArr items)).
    by rewrite parse_stringify.
  - change (stored_text (VObj fields)) with (JSON.stringify (VObj fields)).
    by rewrite parse_stringify.
Qed.

(** C1 (as amended). For a non-empty key and a JSON-serializable value
    that is not a string whose text is itself JSON, and when the key
    carries no expiration that has passed at the time of the read, [get]
    after [set] returns the value and leaves the state as [set] left it.
    This covers [false], [0], [null], numbers with a fraction and nested
    arrays and objects. *)
Theorem set_then_get_returns_value key v e now now' st :
  key ≠ EmptyString →
  serializable v = true →
  json_text v = false →
  no_past_expiration Date_parse key now' (set key v e now st) →
  get Date_parse key now' (set key v e now st) = (Return v, set key v e now st).
Proof.
  intros Hkey Hser Htext Hexp.
  rewrite get_not_expired by by apply no_past_expiration_expired.
  rewrite (getFullKey_DOMAIN key st) by apply DOMAIN_set.
  rewrite set_stores_text by done. by rewrite stored_text_reads_back.
Qed.

End RoundTrip.

(** ** The claims on sample data *)

(** C1, instance: the object of the module's test and numbers with a
    fraction, stored for a day under the domain [object_tests] and read
    back a second later. *)
Lemma set_then_get_returns_value_priced :
  "priced" ≠ EmptyString
  ∧ serializable priced = true
  ∧ json_text priced = false
  ∧ no_past_expiration Date_parse_none "priced" (sample_now + 1000)
      (set "priced" priced (Some "1d") sample_now object_tests)
  ∧ getItem (getExpirationKey "priced" object_tests)
      (set "priced" priced (Some "1d") sample_now object_tests) = Some "1700086400123"
  ∧ get Date_parse_none "priced" (sample_now + 1000)
      (set "priced" priced (Some "1d") sample_now object_tests)
    = (Return priced, set "priced" priced (Some "1d") sample_now object_tests).
Proof.
  assert (H1 : "priced" ≠ EmptyString) by discriminate.
  assert (H2 : serializable priced = true) by (vm_compute; reflexivity).
  assert (H3 : json_text priced = false) by reflexivity.
  assert (H0 : getItem (getExpirationKey "priced" object_tests)
                 (set "priced" priced (Some "1d") sample_now object_tests)
               = Some "1700086400123") by (vm_compute; reflexivity).
  assert (H4 : no_past_expiration Date_parse_none "priced" (sample_now + 1000)
                 (set "priced" priced (Some "1d") sample_now object_tests)).
  { unfold no_past_expiration.
    rewrite (getExpirationKey_DOMAIN "priced" object_tests) by apply DOMAIN_set.
    rewrite H0. exists (VNum (Int 1700086400123)).
    split; [vm_compute; reflexivity|]. intros t [= <-]. vm_compute. discriminate. }
  exact (conj H1 (conj H2 (conj H3 (conj H4 (conj H0
           (set_then_get_returns_value Date_parse_none "priced" priced (Some "1d")
              sample_now (sample_now + 1000) object_tests H1 H2 H3 H4)))))).
Defined.

(** C1, counterexample: the string [123] comes back as the number 123, and
    a value written without expiration over a key whose earlier expiration
    has passed comes back as [null]. *)
Lemma set_then_get_changes_json_text :
  serializable (VStr "123") = true
  ∧ (get Date_parse_none "k" sample_now
       (set "k" (VStr "123") None sample_now initial)).1
    = Return (VNum (Int 123))
  ∧ VNum (Int 123) ≠ VStr "123"
  ∧ (get Date_parse_none "k" (sample_now + 5000)
       (set "k" (VNum (Int 2)) None (sample_now + 5000)
          (set "k" (VNum (Int 1)) (Some "1s") sample_now initial))).1
    = Return VNull.
Proof. repeat split; try (vm_compute; reflexivity). discriminate. Qed.

(** C2, counterexample: [-5s] and [1.5h] are not digits followed by a
    unit, and [setExpiration] writes an expiration entry for both without
    logging anything. *)
Lemma setExpiration_writes_for_other_formats :
  digits_then_unit "-5s" = false
  ∧ getItem "_k_expiration_date" (setExpiration "k" "-5s" sample_now initial)
    = Some "1699999995123"
  ∧ console (setExpiration "k" "-5s" sample_now initial) = []
  ∧ digits_then_unit "1.5h" = false
  ∧ getItem "_k_expiration_date" (setExpiration "k" "1.5h" sample_now initial)
    = Some "1700003600123"
  ∧ console (setExpiration "k" "1.5h" sample_now initial) = [].
Proof. repeat split; vm_compute; reflexivity. Qed.

(** C3, instance: a value stored for one second and read 1001 ms later. *)
Lemma get_expired_removes_and_returns_null_one_second :
  getItem (getExpirationKey "k" one_second) one_second = Some "1700000001123"
  ∧ JSON.parse "1700000001123" = Some (VNum (Int 1700000001123))
  ∧ Date.of_value Date_parse_none (VNum (Int 1700000001123)) = Some 1700000001123
  ∧ 1700000001123 < sample_now + 1001
  ∧ (get Date_parse_none "k" (sample_now + 1001) one_second).1 = Return VNull
  ∧ getItem (getFullKey "k" one_second)
      (get Date_parse_none "k" (sample_now + 1001) one_second).2 = None
  ∧ getItem (getExpirationKey "k" one_second)
      (get Date_parse_none "k" (sample_now + 1001) one_second).2 = None.
Proof.
  assert (H1 : getItem (getExpirationKey "k" one_second) one_second
               = Some "1700000001123") by (vm_compute; reflexivity).
  assert (H2 : JSON.parse "1700000001123" = Some (VNum (Int 1700000001123)))
    by (vm_compute; reflexivity).
  assert (H3 : Date.of_value Date_parse_none (VNum (Int 1700000001123))
               = Some 1700000001123) by reflexivity.
  assert (H4 : 1700000001123 < sample_now + 1001) by reflexivity.
  destruct (get_expired_removes_and_returns_null Date_parse_none "k" (sample_now + 1001)
              one_second _ _ _ H1 H2 H3 H4) as (R1 & _ & R3 & R4 & _).
  exact (conj H1 (conj H2 (conj H3 (conj H4 (conj R1 (conj R3 R4)))))).
Defined.

(** C4, counterexample: one [set] whose key ends with the expiration
    suffix leaves the expiration key of [a] without the value of [a]. *)
Lemma expiration_key_without_value :
  is_Some
    (getItem (getExpirationKey "a" initial)
       (run Date_parse_none [(sample_now, Set_ "a_expiration_date" (VStr "x") None)] initial))
  ∧ getItem (getFullKey "a" initial)
      (run Date_parse_none [(sample_now, Set_ "a_expiration_date" (VStr "x") None)] initial)
    = None.
Proof. split; [by eexists|]; vm_compute; reflexivity. Qed.

(** C4, instance: after the first three calls of the session the
    expiration key of [title] under [books] is in [sessionStorage], and
    so is the value. *)
Lemma expiration_key_implies_value_session :
  plain_keys Date_parse_none (take 3 session) initial
  ∧ is_Some (getItem (getExpirationKey "title" (setDomain "books" initial))
               (run Date_parse_none (take 3 session) initial))
  ∧ is_Some (getItem (getFullKey "title" (setDomain "books" initial))
               (run Date_parse_none (take 3 session) initial))
  ∧ is_Some (sessionStorage (run Date_parse_none (take 3 session) initial)
               !! getFullKey "title" (setDomain "books" initial)).
Proof.
  assert (H : plain_keys Date_parse_none (take 3 session) initial).
  { vm_compute. repeat split. }
  assert (HE : is_Some (getItem (getExpirationKey "title" (setDomain "books" initial))
                          (run Date_parse_none (take 3 session) initial))).
  { vm_compute. eauto. }
  destruct (expiration_key_implies_value Date_parse_none (take 3 session) H
              (setDomain "books" initial) "title") as (R1 & _ & R3).
  exact (conj H (conj HE (conj (R1 HE) (R3 HE)))).
Defined.

(** C7, instance: at the very instant its expiration names, a stored text
    that is not JSON is returned as it is. *)
Lemma get_parses_or_returns_raw_one_second :
  no_past_expiration Date_parse_none "k" (sample_now + 1000) one_second
  ∧ getItem (getExpirationKey "k" one_second) one_second = Some "1700000001123"
  ∧ getItem (getFullKey "k" one_second) one_second = Some "abc"
  ∧ JSON.parse "abc" = None
  ∧ get Date_parse_none "k" (sample_now + 1000) one_second
    = (Return (VStr "abc"), one_second).
Proof.
  assert (H0 : getItem (getExpirationKey "k" one_second) one_second
               = Some "1700000001123") by (vm_compute; reflexivity).
  assert (H1 : no_past_expiration Date_parse_none "k" (sample_now + 1000) one_second).
  { unfold no_past_expiration. rewrite H0. exists (VNum (Int 1700000001123)).
    split; [vm_compute; reflexivity|]. intros t [= <-]. vm_compute. discriminate. }
  assert (H2 : getItem (getFullKey "k" one_second) one_second = Some "abc")
    by (vm_compute; reflexivity).
  assert (H3 : JSON.parse "abc" = None) by (vm_compute; reflexivity).
  exact (conj H1 (conj H0 (conj H2 (conj H3
           (proj1 (proj2 (get_parses_or_returns_raw Date_parse_none "k"
                            (sample_now + 1000) one_second H1)) _ H2 H3))))).
Defined.

(** C7, counterexample: the key [a] has an expiration entry that is not
    JSON text, so no expiration that has passed, and no value; [get]
    throws. *)
Lemma get_throws_on_malformed_expiration :
  getItem (getExpirationKey "a" initial)
    (set "a_expiration_date" (VStr "soon") None sample_now initial) = Some "soon"
  ∧ JSON.parse "soon" = None
  ∧ getItem (getFullKey "a" initial)
      (set "a_expiration_date" (VStr "soon") None sample_now initial) = None
  ∧ get Date_parse_none "a" sample_now
      (set "a_expiration_date" (VStr "soon") None sample_now initial)
    = (Throw, set "a_expiration_date" (VStr "soon") None sample_now initial).
Proof.
  split; [vm_compute; reflexivity|]. split; [vm_compute; reflexivity|].
  split; vm_compute; reflexivity.
Qed.

(** C9, instance: [k] was stored for one second; a later [set] without a
    format keeps that expiration. *)
Lemma set_without_expiration_keeps_expiration_one_second :
  "k" ≠ EmptyString
  ∧ (@None string = None ∨ @None string = Some EmptyString)
  ∧ getItem (getExpirationKey "k" one_second) one_second = Some "1700000001123"
  ∧ getItem (getExpirationKey "k" (set "k" (VBool true) None (sample_now + 5000) one_second))
      (set "k" (VBool true) None (sample_now + 5000) one_second)
    = getItem (getExpirationKey "k" one_second) one_second
  ∧ getItem (getFullKey "k" (set "k" (VBool true) None (sample_now + 5000) one_second))
      (set "k" (VBool true) None (sample_now + 5000) one_second)
    = Some (stored_text (VBool true)).
Proof.
  assert (H1 : "k" ≠ EmptyString) by discriminate.
  assert (H2 : @None string = None ∨ @None string = Some EmptyString) by (left; reflexivity).
  assert (H3 : getItem (getExpirationKey "k" one_second) one_second = Some "1700000001123")
    by (vm_compute; reflexivity).
  destruct (set_without_expiration_keeps_expiration Date_parse_none "k" (VBool true) None
              (sample_now + 5000) one_second H1 H2) as (R1 & R2 & _).
  exact (conj H1 (conj H2 (conj H3 (conj R2 R1)))).
Defined.

(** C10, instance: entries written under [books] and under the default
    domain are all gone after [clearDomain()] with the default domain. *)
Lemma clearDomain_empty_domain_two_domains :
  DOMAIN two_domains = EmptyString
  ∧ size (items two_domains) = 4%nat
  ∧ getItem "books_title" (clearDomain None two_domains) = None
  ∧ getItem "_t_expiration_date" (clearDomain None two_domains) = None.
Proof.
  assert (H : DOMAIN two_domains = EmptyString) by reflexivity.
  destruct (clearDomain_empty_domain_removes_every_library_key two_domains H)
    as (R & _ & _).
  split; [exact H|]. split; [vm_compute; reflexivity|].
  split; [exact (R "books_title" eq_refl)|exact (R "_t_expiration_date" eq_refl)].
Defined.

(** C10, counterexample: an entry the library wrote while the other
    storage was selected is still there after [clearDomain()] under the
    default domain. *)
Lemma clearDomain_empty_domain_keeps_other_storage :
  DOMAIN written_elsewhere = EmptyString
  ∧ store written_elsewhere = LocalStorage
  ∧ sessionStorage (clearDomain None written_elsewhere) !! "books_k" = Some "v"
  ∧ is_Some (sessionStorage (clearDomain None written_elsewhere)
               !! "books_k_expiration_date").
Proof.
  split; [reflexivity|]. split; [reflexivity|].
  split; [vm_compute; reflexivity|vm_compute; eauto].
Qed.

(** ** The fuel of [JSON.parse] is enough *)

Section FuelFacts.
Import Text.

Lemma span_eq p s a b : span p s = (a, b) → s = a +:+ b.
Proof.
  revert a b. induction s as [|c s IH]; intros a b; simpl.
  - by intros [= <- <-].
  - destruct (p c); [|by intros [= <- <-]].
    destruct (span p s) as [a' b'] eqn:E. intros [= <- <-].
    rewrite app_cons. f_equal. by apply IH.
Qed.

Lemma span_length p s a b :
  span p s = (a, b) → String.length s = (String.length a + String.length b)%nat.
Proof. intros ->%span_eq. apply app_length. Qed.

Lemma drop_prefix_length p s r :
  drop_prefix p s = Some r → String.length s = (String.length p + String.length r)%nat.
Proof. intros ->%drop_prefix_spec. apply app_length. Qed.

Lemma skip_ws_length s : (String.length (JSON.skip_ws s) ≤ String.length s)%nat.
Proof.
  induction s as [|c s IH]; simpl; [done|].
  destruct (JSON.is_ws c); simpl; lia.
Qed.

Lemma prepend_inv p x t r :
  JSON.prepend p x = Some (t, r) → ∃ t', x = Some (t', r).
Proof. destruct x as [[t' r']|]; simpl; [|done]. intros [= <- <-]. by eexists. Qed.

Lemma string_body_shorter s t r :
  JSON.string_body s = Some (t, r) → (String.length r < String.length s)%nat.
Proof.
  remember (String.length s) as n eqn:Hn. revert s t r Hn.
  induction n as [n IH] using lt_wf_ind. intros s t r -> H.
  assert (Hrec : ∀ s' p, (String.length s' < String.length s)%nat →
                         JSON.prepend p (JSON.string_body s') = Some (t, r) →
                         (String.length r < String.length s)%nat).
  { intros s' p Hlt (t' & Ht')%prepend_inv.
    specialize (IH _ Hlt s' t' r eq_refl Ht'). lia. }
  destruct s as [|c s1]; [done|]. cbn [JSON.string_body] in H.
  destruct (Ascii.eqb c Text.quote).
  { injection H as <- <-. simpl. lia. }
  destruct (Ascii.eqb c Text.backslash).
  - destruct s1 as [|e r1]; [done|].
    destruct (Ascii.eqb e "u").
    + destruct r1 as [|h1 [|h2 [|h3 [|h4 r2]]]]; try done.
      destruct (JSON.hex4 h1 h2 h3 h4) as [hi|]; [|done].
      destruct (if JSON.is_high_surrogate hi then JSON.low_surrogate r2 else None).
      * destruct r2 as [|? [|? [|? [|? [|? [|? r3]]]]]];
          (eapply Hrec; [|exact H]; simpl; lia).
      * eapply Hrec; [|exact H]. simpl. lia.
    + destruct (JSON.simple_escape e); [|done].
      eapply Hrec; [|exact H]. simpl. lia.
  - destruct (N_of_ascii c <? 32)%N; [done|].
    eapply Hrec; [|exact H]. simpl. lia.
Qed.

Lemma signed_length s neg r :
  Number.signed s = (neg, r) → (String.length r ≤ String.length s)%nat.
Proof.
  destruct s as [|c s']; simpl; [by intros [= <- <-]|].
  destruct c as [[] [] [] [] [] [] [] []]; intros [= <- <-]; simpl; lia.
Qed.

Lemma fraction_length s fp rest :
  JSON.fraction s = Some (fp, rest) → (String.length rest ≤ String.length s)%nat.
Proof.
  destruct s as [|c r0]; [by intros [= _ <-]|].
  destruct (Ascii.eqb c ".") eqn:Hc.
  - apply Ascii.eqb_eq in Hc as ->. cbn [JSON.fraction].
    destruct (span is_digit r0) as [fp' s3] eqn:E. apply span_length in E.
    destruct (is_empty fp'); [done|]. intros [= _ <-]. simpl. lia.
  - intros H.
    assert (Some (EmptyString, String c r0) = Some (fp, rest)) as [= _ <-]; [|done].
    rewrite <- H. destruct c as [[] [] [] [] [] [] [] []]; try reflexivity. discriminate.
Qed.

Lemma exponent_length s x rest :
  JSON.exponent s = Some (x, rest) → (String.length rest ≤ String.length s)%nat.
Proof.
  destruct s as [|c r0]; [by intros [= _ <-]|]. cbn [JSON.exponent].
  destruct (_ || _); [|by intros [= _ <-]].
  destruct (Number.signed r0) as [eneg r1] eqn:E2. apply signed_length in E2.
  destruct (span is_digit r1) as [ds r2] eqn:E3. apply span_length in E3.
  destruct (is_empty ds); [done|]. intros [= _ <-]. simpl. lia.
Qed.

Lemma unsigned_number_shorter neg s v r :
  JSON.unsigned_number neg s = Some (v, r) → (String.length r < String.length s)%nat.
Proof.
  unfold JSON.unsigned_number.
  destruct (span is_digit s) as [ip s2] eqn:E1. apply span_length in E1.
  destruct (is_empty ip || JSON.leading_zero ip) eqn:Hip; [done|].
  assert (String.length s2 < String.length s)%nat as Hs2.
  { destruct ip; [done|]. simpl in E1. lia. }
  destruct (JSON.fraction s2) as [[fp s3]|] eqn:E2; [|done].
  apply fraction_length in E2.
  destruct (JSON.exponent s3) as [[x rest]|] eqn:E3; [|done].
  apply exponent_length in E3. intros [= _ <-]. lia.
Qed.

Lemma literal_shorter s v r :
  JSON.literal s = Some (v, r) → (String.length r < String.length s)%nat.
Proof.
  unfold JSON.literal.
  destruct (drop_prefix "null" s) eqn:E1.
  { apply drop_prefix_length in E1. intros [= _ <-]. simpl in E1. lia. }
  destruct (drop_prefix "true" s) eqn:E2.
  { apply drop_prefix_length in E2. intros [= _ <-]. simpl in E2. lia. }
  destruct (drop_prefix "false" s) eqn:E3.
  { apply drop_prefix_length in E3. intros [= _ <-]. simpl in E3. lia. }
  unfold JSON.number_token.
  destruct s as [|c s']; [apply unsigned_number_shorter|].
  destruct (Ascii.eqb c "-") eqn:Hc.
  - apply Ascii.eqb_eq in Hc as ->. intros H%unsigned_number_shorter. simpl. lia.
  - intros H.
    assert (JSON.unsigned_number false (String c s') = Some (v, r)) as H'.
    { destruct c as [[] [] [] [] [] [] [] []]; try exact H. discriminate. }
    by apply unsigned_number_shorter in H'.
Qed.

(** Every parser consumes at least one character. *)
Lemma parsers_shorter fuel :
  (∀ s v r, JSON.value_ fuel s = Some (v, r) →
            (String.length r < String.length s)%nat)
  ∧ (∀ s items r, JSON.elements fuel s = Some (items, r) →
                  (String.length r < String.length s)%nat)
  ∧ (∀ acc s fields r, JSON.members fuel acc s = Some (fields, r) →
                       (String.length r < String.length s)%nat).
Proof.
  induction fuel as [|n (IHv & IHe & IHm)]; [done|]. split; [|split].
  - intros s v r H. destruct s as [|c r0]; [done|]. cbn [JSON.value_] in H.
    pose proof (skip_ws_length r0) as Hws.
    destruct (Ascii.eqb c "[").
    { destruct (JSON.skip_ws r0) as [|c' r'] eqn:E; [done|].
      destruct (Ascii.eqb c' "]"); [injection H as _ <-; simpl in *; lia|].
      destruct (JSON.elements n (String c' r')) as [[items rest]|] eqn:E2; [|done].
      injection H as _ <-. apply IHe in E2. simpl in *. lia. }
    destruct (Ascii.eqb c "{").
    { destruct (JSON.skip_ws r0) as [|c' r'] eqn:E; [done|].
      destruct (Ascii.eqb c' "}"); [injection H as _ <-; simpl in *; lia|].
      destruct (JSON.members n [] (String c' r')) as [[fields rest]|] eqn:E2; [|done].
      injection H as _ <-. apply IHm in E2. simpl in *. lia. }
    destruct (Ascii.eqb c Text.quote).
    { destruct (JSON.string_body r0) as [[t rest]|] eqn:E; [|done].
      injection H as _ <-. apply string_body_shorter in E. simpl. lia. }
    by apply literal_shorter in H.
  - intros s items r H. cbn [JSON.elements] in H.
    destruct (JSON.value_ n s) as [[v r1]|] eqn:E; [|done]. apply IHv in E.
    pose proof (skip_ws_length r1) as Hws.
    destruct (JSON.skip_ws r1) as [|c r'] eqn:E1; [done|].
    destruct (Ascii.eqb c ",").
    { destruct (JSON.elements n (JSON.skip_ws r')) as [[items' rest]|] eqn:E2; [|done].
      injection H as _ <-. apply IHe in E2.
      pose proof (skip_ws_length r'). simpl in *. lia. }
    destruct (Ascii.eqb c "]"); [|done]. injection H as _ <-. simpl in *. lia.
  - intros acc s fields r H. destruct s as [|q r0]; [done|]. cbn [JSON.members] in H.
    destruct (negb (Ascii.eqb q Text.quote)); [done|].
    destruct (JSON.string_body r0) as [[k r1]|] eqn:E; [|done].
    apply string_body_shorter in E.
    pose proof (skip_ws_length r1) as Hws1.
    destruct (JSON.skip_ws r1) as [|c r2] eqn:E1; [done|].
    destruct (negb (Ascii.eqb c ":")); [done|].
    pose proof (skip_ws_length r2) as Hws2.
    destruct (JSON.value_ n (JSON.skip_ws r2)) as [[v r3]|] eqn:E2; [|done].
    apply IHv in E2.
    pose proof (skip_ws_length r3) as Hws3.
    destruct (JSON.skip_ws r3) as [|c' r4] eqn:E3; [done|].
    destruct (Ascii.eqb c' ",").
    { apply IHm in H. pose proof (skip_ws_length r4). simpl in *. lia. }
    destruct (Ascii.eqb c' "}"); [|done]. injection H as _ <-. simpl in *. lia.
Qed.

(** With fuel from twice the length of the input on, the result does not
    depend on the fuel. *)
Lemma fuel_irrelevant f1 :
  (∀ f2 s, (2 * String.length s ≤ f1)%nat → (2 * String.length s ≤ f2)%nat →
           JSON.value_ f1 s = JSON.value_ f2 s)
  ∧ (∀ f2 s, (2 * String.length s + 1 ≤ f1)%nat → (2 * String.length s + 1 ≤ f2)%nat →
             JSON.elements f1 s = JSON.elements f2 s)
  ∧ (∀ f2 acc s, (2 * String.length s + 1 ≤ f1)%nat →
                 (2 * String.length s + 1 ≤ f2)%nat →
                 JSON.members f1 acc s = JSON.members f2 acc s).
Proof.
  induction f1 as [|n1 (IHv & IHe & IHm)].
  { split; [|split; intros; lia].
    intros f2 [|c s] H1 H2; [by destruct f2|]. simpl in H1. lia. }
  split; [|split].
  - intros f2 s H1 H2. destruct s as [|c r0]; [by destruct f2|].
    destruct f2 as [|n2]; [simpl in H2; lia|]. cbn [JSON.value_]. simpl in H1, H2.
    pose proof (skip_ws_length r0) as Hws.
    destruct (Ascii.eqb c "[").
    { destruct (JSON.skip_ws r0) as [|c' r'] eqn:E; [done|].
      destruct (Ascii.eqb c' "]"); [done|].
      rewrite (IHe n2) by (simpl in *; lia). done. }
    destruct (Ascii.eqb c "{"); [|done].
    destruct (JSON.skip_ws r0) as [|c' r'] eqn:E; [done|].
    destruct (Ascii.eqb c' "}"); [done|].
    rewrite (IHm n2) by (simpl in *; lia). done.
  - intros f2 s H1 H2. destruct f2 as [|n2]; [lia|]. cbn [JSON.elements].
    rewrite (IHv n2) by lia.
    destruct (JSON.value_ n2 s) as [[v r1]|] eqn:E; [|done].
    apply (proj1 (parsers_shorter n2)) in E.
    pose proof (skip_ws_length r1) as Hws.
    destruct (JSON.skip_ws r1) as [|c r'] eqn:E1; [done|].
    destruct (Ascii.eqb c ","); [|done].
    pose proof (skip_ws_length r').
    rewrite (IHe n2) by (simpl in *; lia). done.
  - intros f2 acc s H1 H2. destruct f2 as [|n2]; [lia|].
    destruct s as [|q r0]; [done|]. cbn [JSON.members].
    destruct (negb (Ascii.eqb q Text.quote)); [done|].
    destruct (JSON.string_body r0) as [[k r1]|] eqn:E; [|done].
    apply string_body_shorter in E.
    pose proof (skip_ws_length r1) as Hws1.
    destruct (JSON.skip_ws r1) as [|c r2] eqn:E1; [done|].
    destruct (negb (Ascii.eqb c ":")); [done|].
    pose proof (skip_ws_length r2) as Hws2.
    rewrite (IHv n2) by (simpl in *; lia).
    destruct (JSON.value_ n2 (JSON.skip_ws r2)) as [[v r3]|] eqn:E2; [|done].
    apply (proj1 (parsers_shorter n2)) in E2.
    pose proof (skip_ws_length r3) as Hws3.
    destruct (JSON.skip_ws r3) as [|c' r4] eqn:E3; [done|].
    destruct (Ascii.eqb c' ","); [|done].
    pose proof (skip_ws_length r4).
    rewrite (IHm n2) by (simpl in *; lia). done.
Qed.

(** More fuel than [JSON.parse] takes never changes its result: [None] is
    a syntax error, not a shortage of fuel. *)
Lemma parse_fuel s fuel :
  (2 * String.length s + 2 ≤ fuel)%nat →
  JSON.value_ fuel (JSON.skip_ws s)
  = JSON.value_ (2 * String.length s + 2) (JSON.skip_ws s).
Proof.
  intros H. pose proof (skip_ws_length s).
  apply (proj1 (fuel_irrelevant fuel)); lia.
Qed.

(** *** The fuel of the number functions *)

Lemma first_prefix_shorter ws s r :
  Forall (fun w => w ≠ EmptyString) ws →
  Number.first_prefix ws s = Some r → (String.length r < String.length s)%nat.
Proof.
  induction 1 as [|w ws Hw Hws IH]; [done|]. simpl.
  destruct (drop_prefix w s) as [r'|] eqn:E; [|exact IH].
  intros [= <-]. apply drop_prefix_length in E. destruct w; [done|]. simpl in E. lia.
Qed.

Lemma white_space_nonempty : Forall (fun w => w ≠ EmptyString) Number.white_space.
Proof. unfold Number.white_space. repeat constructor; discriminate. Qed.

(** [skip_white_space] with the length of its input as fuel has skipped
    all the white space there is. *)
Lemma skip_white_space_fuel f1 f2 s :
  (String.length s ≤ f1)%nat → (String.length s ≤ f2)%nat →
  Number.skip_white_space f1 s = Number.skip_white_space f2 s.
Proof.
  revert f2 s. induction f1 as [|n1 IH]; intros f2 s H1 H2.
  - destruct s; [|simpl in H1; lia]. by destruct f2.
  - destruct f2 as [|n2].
    + destruct s; [|simpl in H2; lia]. reflexivity.
    + cbn [Number.skip_white_space].
      destruct (Number.first_prefix Number.white_space s) as [r|] eqn:E; [|done].
      apply (first_prefix_shorter _ _ _ white_space_nonempty) in E.
      apply IH; lia.
Qed.

(** [strip_zeros] with the fuel [of_decimal] gives it leaves a mantissa
    that is zero or not a multiple of ten. *)
Lemma strip_zeros_canonical fuel m e :
  Z.abs m < 2 ^ (Z.of_nat fuel + 1) →
  (Number.strip_zeros fuel m e).1 = 0 ∨ (Number.strip_zeros fuel m e).1 mod 10 ≠ 0.
Proof.
  revert m e. induction fuel as [|fuel IH]; intros m e Hm.
  - simpl in *. assert (m = -1 ∨ m = 0 ∨ m = 1) as [->|[->| ->]] by lia; auto.
  - cbn [Number.strip_zeros].
    destruct (m mod 10 =? 0) eqn:Hmod; simpl.
    + destruct (m =? 0) eqn:H0; simpl.
      * left. by apply Z.eqb_eq.
      * apply IH. apply Z.eqb_eq in Hmod.
        rewrite Nat2Z.inj_succ, <- Z.add_1_r, Z.pow_add_r, Z.pow_1_r in Hm by lia.
        pose proof (Z.div_mod m 10 ltac:(lia)) as Hdiv. rewrite Hmod in Hdiv.
        lia.
    + right. by apply Z.eqb_neq.
Qed.

Lemma of_decimal_fuel m :
  Z.abs m < 2 ^ (Z.of_nat (Z.to_nat (Z.log2 (Z.abs m))) + 1).
Proof.
  rewrite Z2Nat.id by apply Z.log2_nonneg.
  destruct (decide (m = 0)) as [->|Hne]; [done|].
  replace (Z.log2 (Z.abs m) + 1) with (Z.succ (Z.log2 (Z.abs m))) by lia.
  apply Z.log2_spec. lia.
Qed.

End FuelFacts.

(** ** The model on small inputs *)

Example of_string_samples :
  Number.of_string <$> ["20"; "-5"; "1.5"; " "; "1e3"; "0x1d"; "Infinity"; "abc"; "5s"; "1e"; "."]
  = [Int 20; Int (-5); Dec 15 (-1); Int 0; Int 1000; Int 29; Infinity false; NaN; NaN; NaN; NaN].
Proof. vm_compute. reflexivity. Qed.

Example to_string_samples :
  Number.to_string <$> [Int 0; Int (-12); Dec 15 (-1); Dec 1 21; Dec 1 (-7); Dec 1 (-6); NaN]
  = ["0"; "-12"; "1.5"; "1e+21"; "1e-7"; "0.000001"; "NaN"].
Proof. vm_compute. reflexivity. Qed.

Example parse_samples :
  JSON.parse <$> ["123"; "-0"; " [1 , 2] "; "{ }"; "[1,]"; "01"; "1."; "tru"; "null"; "1 2"]
  = [Some (VNum (Int 123)); Some (VNum (Int 0)); Some (VArr [VNum (Int 1); VNum (Int 2)]);
     Some (VObj []); None; None; None; None; Some VNull; None].
Proof. vm_compute. reflexivity. Qed.

Example fraction_samples :
  Number.to_string <$> [Dec 1999 (-2); Dec (-25) (-8); Dec 1 21; Dec 15 (-1)]
  = ["19.99"; "-2.5e-7"; "1e+21"; "1.5"]
  ∧ JSON.parse <$> ["19.99"; "-2.5e-7"; "1e+21"; "1.5"; "0.50"; "15e-1"]
    = Some <$> [VNum (Dec 1999 (-2)); VNum (Dec (-25) (-8)); VNum (Dec 1 21);
                VNum (Dec 15 (-1)); VNum (Dec 5 (-1)); VNum (Dec 15 (-1))]
  ∧ JSON.parse (JSON.stringify priced) = Some priced.
Proof. split; [|split]; vm_compute; reflexivity. Qed.

Example stringify_simpleObject :
  JSON.parse (JSON.stringify simpleObject) = Some simpleObject
  ∧ String.length (JSON.stringify simpleObject) = 98%nat.
Proof. split; vm_compute; reflexivity. Qed.

(** A value stored for one second is read back at once and is gone, with
    its expiration entry, once the second has passed. *)
Example expiration_one_second :
  (get Date_parse_none "k" sample_now one_second).1 = Return (VStr "abc")
  ∧ (get Date_parse_none "k" (sample_now + 1000) one_second).1 = Return (VStr "abc")
  ∧ (get Date_parse_none "k" (sample_now + 1001) one_second).1 = Return VNull
  ∧ map_to_list (items (get Date_parse_none "k" (sample_now + 1001) one_second).2)
    = [("_raw", "not json")].
Proof. repeat split; vm_compute; reflexivity. Qed.

(** With a format that is refused the value is stored, no expiration
    is, and one warning is logged. *)
Example refused_formats :
  (fun e => map_to_list (items (set "k" (VNum (Int 1)) (Some e) sample_now initial)))
    <$> ["5"; "abc"; "-3x"; "s"]
  = [[("_k", "1")]; [("_k", "1")]; [("_k", "1")]; [("_k", "1")]]
  ∧ console (set "k" (VNum (Int 1)) (Some "-3x") sample_now initial)
    = [console_warn expiration_warning].
Proof. split; vm_compute; reflexivity. Qed.

(** * Further properties *)

(** ** Reads of absent and of unrelated entries *)

Section FurtherReadFacts.
Variable Date_parse : string → option Z.

Lemma get_absent key now st :
  getItem (getFullKey key st) st = None →
  getItem (getExpirationKey key st) st = None →
  get Date_parse key now st = (Return VNull, st).
Proof.
  intros HF HE. rewrite get_not_expired by by apply expired_absent. by rewrite HF.
Qed.

(** The result of [get] depends on the domain and on two entries only. *)
Lemma get_agree key now st1 st2 :
  DOMAIN st1 = DOMAIN st2 →
  getItem (getFullKey key st1) st1 = getItem (getFullKey key st1) st2 →
  getItem (getExpirationKey key st1) st1 = getItem (getExpirationKey key st1) st2 →
  (get Date_parse key now st1).1 = (get Date_parse key now st2).1.
Proof.
  intros Hd HF HE.
  assert (HF' : getFullKey key st2 = getFullKey key st1) by by apply getFullKey_DOMAIN.
  assert (HE' : getExpirationKey key st2 = getExpirationKey key st1)
    by by apply getExpirationKey_DOMAIN.
  unfold get, expired, hasExpirationDate, hasExpired. rewrite HF', HE', <- HF, <- HE.
  destruct (bool_decide _); [|by destruct (JSON.parse _)].
  destruct (JSON.parse (item_text (getItem (getExpirationKey key st1) st1))); [|done].
  destruct (match Date.of_value _ _ with Some t => t <? now | None => false end); [done|].
  by destruct (JSON.parse _).
Qed.

End FurtherReadFacts.

(** ** Entries that an operation leaves alone *)

Section FrameFacts.

Lemma with_items_ext f g st :
  (∀ m, f m = g m) → with_items f st = with_items g st.
Proof. intros H. destruct st as [d [] l s c]; unfold with_items; simpl; by rewrite H. Qed.

Lemma remove_with_items key st :
  remove key st
  = with_items (fun m => delete (getExpirationKey key st) (delete (getFullKey key st) m)) st.
Proof. unfold remove, removeItem. by rewrite with_items_compose. Qed.

Lemma remove_idempotent key st : remove key (remove key st) = remove key st.
Proof.
  rewrite (remove_with_items key (remove key st)).
  rewrite (getFullKey_DOMAIN key st), (getExpirationKey_DOMAIN key st) by apply DOMAIN_remove.
  rewrite (remove_with_items key st), with_items_compose.
  apply with_items_ext. intros m.
  apply map_eq. intros i. rewrite !lookup_delete. by repeat case_decide.
Qed.

Lemma with_items_same f st : f (items st) = items st → with_items f st = st.
Proof. destruct st as [d [] l s c]; unfold with_items, items; simpl; by intros ->. Qed.

Lemma remove_absent key st :
  getItem (getFullKey key st) st = None →
  getItem (getExpirationKey key st) st = None → remove key st = st.
Proof.
  intros HF HE. rewrite remove_with_items. apply with_items_same.
  unfold getItem in *. by rewrite (delete_id _ _ HF), (delete_id _ _ HE).
Qed.

Lemma setExpiration_other_items key e now st :
  other_items (setExpiration key e now st) = other_items st.
Proof.
  destruct (setExpiration_cases key e now st) as [[t ->]|[->| ->]]; [|done..].
  apply other_items_with_items.
Qed.

Lemma set_other_items key v e now st : other_items (set key v e now st) = other_items st.
Proof.
  unfold set. destruct (Text.is_empty key); [done|].
  destruct e as [e|]; [destruct (Text.is_empty e)|];
    rewrite ?setExpiration_other_items; apply other_items_with_items.
Qed.

Lemma set_lookup_other key v e now st k :
  k ≠ getFullKey key st → k ≠ getExpirationKey key st →
  getItem k (set key v e now st) = getItem k st.
Proof.
  intros HF HE. unfold set. destruct (Text.is_empty key); [done|].
  set (st1 := setItem (getFullKey key st) (stored_text v) st).
  assert (H1 : getItem k st1 = getItem k st).
  { unfold st1, getItem, setItem. rewrite items_with_items. by apply lookup_insert_ne. }
  destruct e as [e|]; [|done]. destruct (Text.is_empty e); [done|].
  rewrite setExpiration_lookup_other; [done|].
  by rewrite (getExpirationKey_DOMAIN key st) by apply DOMAIN_with_items.
Qed.

End FrameFacts.

(** ** Removal, reads and resets *)

Section RemovalProperties.
Variable Date_parse : string → option Z.

(** X1. After [remove(key)] a read of the key returns [null] and changes
    nothing, whatever was stored before; removing twice is removing once,
    removing a key that has no entry changes nothing, and no entry other
    than the full key and the expiration key of the key is touched. *)
Theorem remove_then_get_returns_null key now st :
  get Date_parse key now (remove key st) = (Return VNull, remove key st)
  ∧ remove key (remove key st) = remove key st
  ∧ (getItem (getFullKey key st) st = None →
     getItem (getExpirationKey key st) st = None → remove key st = st)
  ∧ (∀ k, k ≠ getFullKey key st → k ≠ getExpirationKey key st →
          getItem k (remove key st) = getItem k st)
  ∧ console (remove key st) = console st.
Proof.
  split; [|split; [apply remove_idempotent|split; [apply remove_absent|split]]].
  - apply get_absent.
    + rewrite (getFullKey_DOMAIN key st) by apply DOMAIN_remove.
      rewrite remove_lookup. by rewrite bool_decide_eq_true_2 by (by left).
    + rewrite (getExpirationKey_DOMAIN key st) by apply DOMAIN_remove.
      rewrite remove_lookup. by rewrite bool_decide_eq_true_2 by (by right).
  - intros k H1 H2. rewrite remove_lookup. by rewrite bool_decide_eq_false_2 by tauto.
  - unfold remove, removeItem. by rewrite !console_with_items.
Qed.

(** X2. [getAndRemove(key)] returns what [get(key)] returns and leaves the
    state [remove(key)] leaves, also when the read found the key expired;
    when the read throws, nothing is removed.  After a normal return a
    read of the key gives [null]. *)
Theorem getAndRemove_returns_get_then_removes key now st :
  getAndRemove Date_parse key now st
  = match (get Date_parse key now st).1 with
    | Return res => (Return res, remove key st)
    | Throw => (Throw, st)
    end
  ∧ ∀ res now',
      (getAndRemove Date_parse key now st).1 = Return res →
      get Date_parse key now' (getAndRemove Date_parse key now st).2
      = (Return VNull, (getAndRemove Date_parse key now st).2).
Proof.
  assert (H : getAndRemove Date_parse key now st
              = match (get Date_parse key now st).1 with
                | Return res => (Return res, remove key st)
                | Throw => (Throw, st)
                end).
  { unfold getAndRemove, get.
    destruct (expired Date_parse key now st) as [[]|]; simpl.
    - by rewrite remove_idempotent.
    - by destruct (JSON.parse _).
    - done. }
  split; [exact H|]. intros res now'. rewrite H.
  destruct (get Date_parse key now st).1 as [res'|]; [|done]. simpl. intros _.
  apply get_absent.
  - rewrite (getFullKey_DOMAIN key st) by apply DOMAIN_remove.
    rewrite remove_lookup. by rewrite bool_decide_eq_true_2 by (by left).
  - rewrite (getExpirationKey_DOMAIN key st) by apply DOMAIN_remove.
    rewrite remove_lookup. by rewrite bool_decide_eq_true_2 by (by right).
Qed.

(** X3. [bust()] empties the storage that is selected and only that one:
    the other storage, the domain, the selection and the console stay, and
    afterwards a read of any key under any domain returns [null]. *)
Theorem bust_empties_the_selected_storage st :
  items (bust st) = ∅
  ∧ other_items (bust st) = other_items st
  ∧ DOMAIN (bust st) = DOMAIN st
  ∧ store (bust st) = store st
  ∧ console (bust st) = console st
  ∧ ∀ d key now,
      get Date_parse key now (setDomain d (bust st))
      = (Return VNull, setDomain d (bust st)).
Proof.
  unfold bust, clear.
  rewrite items_with_items, other_items_with_items, DOMAIN_with_items,
    store_with_items, console_with_items.
  repeat (split; [done|]). intros d key now.
  assert (Hi : items (setDomain d (with_items (fun _ => ∅) st)) = ∅).
  { change (items (setDomain d ?s)) with (items s). apply items_with_items. }
  apply get_absent; unfold getItem; rewrite Hi; apply lookup_empty.
Qed.

(** X4. A read never writes: [get] leaves the state as it is, or, when
    it finds the key expired, returns [null] and leaves what [remove]
    leaves; every entry present afterwards was there before with the same
    text, and a read that throws changes nothing. *)
Theorem get_never_writes key now st :
  ((get Date_parse key now st).2 = st
   ∨ (get Date_parse key now st).1 = Return VNull
     ∧ (get Date_parse key now st).2 = remove key st)
  ∧ (∀ k text, getItem k (get Date_parse key now st).2 = Some text →
               getItem k st = Some text)
  ∧ ((get Date_parse key now st).1 = Throw → (get Date_parse key now st).2 = st)
  ∧ console (get Date_parse key now st).2 = console st
  ∧ other_items (get Date_parse key now st).2 = other_items st.
Proof.
  assert (H : (get Date_parse key now st).2 = st
              ∨ (get Date_parse key now st).1 = Return VNull
                ∧ (get Date_parse key now st).2 = remove key st).
  { unfold get. destruct (expired Date_parse key now st) as [[]|]; simpl; auto.
    destruct (JSON.parse _); auto. }
  split; [exact H|]. split; [|split; [|split]].
  - intros k text. destruct H as [->|[_ ->]]; [done|].
    rewrite remove_lookup. by case_bool_decide.
  - destruct H as [H|[-> _]]; done.
  - destruct H as [->|[_ ->]]; [done|].
    unfold remove, removeItem. by rewrite !console_with_items.
  - destruct H as [->|[_ ->]]; [done|].
    unfold remove, removeItem. by rewrite !other_items_with_items.
Qed.

(** X5. For a key that has no expiration entry [hasExpired] reads [null]
    as the epoch and answers that the key has expired at any time after
    it; [get] asks [hasExpirationDate] first, treats the key as not
    expired, and returns [null] without a change when the key has no
    value either. *)
Theorem hasExpired_without_entry_reads_the_epoch key now st :
  getItem (getExpirationKey key st) st = None →
  hasExpired Date_parse key now st = Return (0 <? now)
  ∧ hasExpirationDate key st = false
  ∧ expired Date_parse key now st = Return false
  ∧ (getItem (getFullKey key st) st = None →
     get Date_parse key now st = (Return VNull, st)).
Proof.
  intros H. split; [|split; [|split]].
  - unfold hasExpired. by rewrite H.
  - unfold hasExpirationDate. rewrite H.
    by rewrite bool_decide_eq_false_2 by (intros ?; done).
  - by apply expired_absent.
  - intros HF. by apply get_absent.
Qed.

(** X6. Every call other than [config] leaves the selection of the storage
    and every entry of the storage that is not selected as they were, and
    only [set] prints on the console; [config] changes no entry of either
    storage and prints nothing. *)
Theorem calls_keep_the_other_storage now c st :
  match c with
  | Config _ =>
      localStorage (exec Date_parse now c st) = localStorage st
      ∧ sessionStorage (exec Date_parse now c st) = sessionStorage st
      ∧ console (exec Date_parse now c st) = console st
  | Set_ _ _ _ =>
      store (exec Date_parse now c st) = store st
      ∧ other_items (exec Date_parse now c st) = other_items st
  | _ =>
      store (exec Date_parse now c st) = store st
      ∧ other_items (exec Date_parse now c st) = other_items st
      ∧ console (exec Date_parse now c st) = console st
  end.
Proof.
  assert (Hremove : ∀ k s, store (remove k s) = store s
                           ∧ other_items (remove k s) = other_items s
                           ∧ console (remove k s) = console s).
  { intros k s. unfold remove, removeItem.
    by rewrite !store_with_items, !other_items_with_items, !console_with_items. }
  assert (Hget : ∀ k, store (get Date_parse k now st).2 = store st
                      ∧ other_items (get Date_parse k now st).2 = other_items st
                      ∧ console (get Date_parse k now st).2 = console st).
  { intros k. destruct (get_state Date_parse k now st) as [-> | ->]; [done|apply Hremove]. }
  destruct c as [o|k v e|k|k|k|d|d|]; simpl.
  - done.
  - split; [apply store_set|apply set_other_items].
  - apply Hget.
  - apply Hremove.
  - unfold getAndRemove. destruct (Hget k) as (H1 & H2 & H3).
    destruct (get Date_parse k now st) as [[res|] st']; simpl in *; [|done].
    destruct (Hremove k st') as (-> & -> & ->). done.
  - done.
  - destruct (clearDomain_with_items d st) as [f ->].
    by rewrite store_with_items, other_items_with_items, console_with_items.
  - unfold bust, clear.
    by rewrite store_with_items, other_items_with_items, console_with_items.
Qed.

End RemovalProperties.

(** ** Keys and domains that meet, and that do not *)

Section KeyFacts.

Lemma app_inv_head a b c : a +:+ b = a +:+ c → b = c.
Proof.
  induction a as [|x a IH]; [by rewrite !app_nil_l|].
  rewrite !app_cons. intros [= H]. by apply IH.
Qed.

Lemma underscore_free_cons c d :
  underscore_free (String c d) = true → c ≠ "_"%char ∧ underscore_free d = true.
Proof.
  unfold underscore_free. rewrite !negb_true_iff. intros H. split.
  - intros ->. by rewrite (proj2 (includes_spec "_" (String "_" d))) in H
      by (exists EmptyString, d; by rewrite app_nil_l, app_cons, app_nil_l).
  - destruct (Text.includes "_" d) eqn:E; [|done].
    apply includes_spec in E as (a & b & ->).
    rewrite (proj2 (includes_spec "_" _)) in H; [done|].
    exists (String c a), b. by rewrite app_cons.
Qed.

(** With underscore-free domains a full key has one reading. *)
Lemma full_key_split d1 d2 r1 r2 :
  underscore_free d1 = true → underscore_free d2 = true →
  d1 +:+ "_" +:+ r1 = d2 +:+ "_" +:+ r2 → d1 = d2 ∧ r1 = r2.
Proof.
  revert d2. induction d1 as [|c d1 IH]; intros [|c' d2] H1 H2;
    rewrite ?app_nil_l, ?app_cons; intros [= E]; subst.
  - by rewrite app_nil_l in *.
  - by destruct (underscore_free_cons _ _ H2).
  - by destruct (underscore_free_cons _ _ H1).
  - destruct (IH d2) as [-> ->]; try done.
    + by destruct (underscore_free_cons _ _ H1).
    + by destruct (underscore_free_cons _ _ H2).
Qed.

Lemma getFullKey_setDomain key d st : getFullKey key (setDomain d st) = d +:+ "_" +:+ key.
Proof. done. Qed.

Lemma getExpirationKey_setDomain key d st :
  getExpirationKey key (setDomain d st) = d +:+ "_" +:+ key +:+ EXPIRE.
Proof. unfold getExpirationKey. by rewrite getFullKey_setDomain, !app_assoc. Qed.

Lemma getExpirationKey_app key st :
  getExpirationKey key st = DOMAIN st +:+ "_" +:+ key +:+ EXPIRE.
Proof. unfold getExpirationKey, getFullKey. by rewrite !app_assoc. Qed.

Lemma getItem_setDomain k d st : getItem k (setDomain d st) = getItem k st.
Proof. done. Qed.

Lemma is_empty_false s : s ≠ EmptyString → Text.is_empty s = false.
Proof. by destruct s. Qed.

End KeyFacts.

Section IsolationProperties.
Variable Date_parse : string → option Z.

(** X7. In one domain, [set] and [remove] of a key change what [get]
    returns for no other key, as long as neither key is the other one
    followed by the expiration suffix. *)
Theorem other_keys_read_the_same k1 k2 v e now now' st :
  k2 ≠ k1 →
  k2 ≠ k1 +:+ EXPIRE →
  k1 ≠ k2 +:+ EXPIRE →
  (get Date_parse k2 now' (set k1 v e now st)).1 = (get Date_parse k2 now' st).1
  ∧ (get Date_parse k2 now' (remove k1 st)).1 = (get Date_parse k2 now' st).1.
Proof.
  intros H1 H2 H3.
  assert (HFF : getFullKey k2 st ≠ getFullKey k1 st).
  { unfold getFullKey. by intros ?%app_inv_head%app_inv_head. }
  assert (HFE : getFullKey k2 st ≠ getExpirationKey k1 st).
  { rewrite getExpirationKey_app. unfold getFullKey.
    by intros ?%app_inv_head%app_inv_head. }
  assert (HEF : getExpirationKey k2 st ≠ getFullKey k1 st).
  { rewrite getExpirationKey_app. unfold getFullKey.
    by intros ?%app_inv_head%app_inv_head. }
  assert (HEE : getExpirationKey k2 st ≠ getExpirationKey k1 st).
  { unfold getExpirationKey, getFullKey.
    by intros ?%app_inv_tail%app_inv_head%app_inv_head. }
  split.
  - apply get_agree.
    + apply DOMAIN_set.
    + rewrite (getFullKey_DOMAIN k2 st) by apply DOMAIN_set. by apply set_lookup_other.
    + rewrite (getExpirationKey_DOMAIN k2 st) by apply DOMAIN_set.
      by apply set_lookup_other.
  - apply get_agree.
    + apply DOMAIN_remove.
    + rewrite (getFullKey_DOMAIN k2 st) by apply DOMAIN_remove.
      rewrite remove_lookup. by rewrite bool_decide_eq_false_2 by tauto.
    + rewrite (getExpirationKey_DOMAIN k2 st) by apply DOMAIN_remove.
      rewrite remove_lookup. by rewrite bool_decide_eq_false_2 by tauto.
Qed.

(** X8. Two different domains in which no underscore occurs are apart:
    whatever is set or removed under one, every key under the other reads
    as before. *)
Theorem domains_without_underscore_are_apart d1 d2 k1 k2 v e now now' st :
  underscore_free d1 = true →
  underscore_free d2 = true →
  d1 ≠ d2 →
  (get Date_parse k2 now' (setDomain d2 (set k1 v e now (setDomain d1 st)))).1
  = (get Date_parse k2 now' (setDomain d2 st)).1
  ∧ (get Date_parse k2 now' (setDomain d2 (remove k1 (setDomain d1 st)))).1
    = (get Date_parse k2 now' (setDomain d2 st)).1.
Proof.
  intros Hd1 Hd2 Hne.
  assert (Hkeys : ∀ r1 r2, d2 +:+ "_" +:+ r2 ≠ d1 +:+ "_" +:+ r1).
  { intros r1 r2 E. apply full_key_split in E as [E _]; [|done..]. by apply Hne. }
  split.
  - apply get_agree; [done|..]; rewrite !getItem_setDomain;
      rewrite ?getFullKey_setDomain, ?getExpirationKey_setDomain;
      (rewrite set_lookup_other; [done|..]);
      rewrite ?getFullKey_setDomain, ?getExpirationKey_setDomain; apply Hkeys.
  - apply get_agree; [done|..]; rewrite !getItem_setDomain, remove_lookup;
      rewrite ?getFullKey_setDomain, ?getExpirationKey_setDomain;
      (rewrite bool_decide_eq_false_2; [done|]);
      intros [E|E]; by apply Hkeys in E.
Qed.

(** X9. An underscore in a domain or in a key makes domains overlap: the
    key [a_k] under the domain [d] and the key [k] under the domain [d_a]
    are one entry, read alike from both sides, and a read that removes it
    on one side removes it on the other. *)
Theorem underscore_makes_domains_overlap d a k now st :
  getFullKey k (setDomain (d +:+ "_" +:+ a) st)
  = getFullKey (a +:+ "_" +:+ k) (setDomain d st)
  ∧ getExpirationKey k (setDomain (d +:+ "_" +:+ a) st)
    = getExpirationKey (a +:+ "_" +:+ k) (setDomain d st)
  ∧ (get Date_parse k now (setDomain (d +:+ "_" +:+ a) st)).1
    = (get Date_parse (a +:+ "_" +:+ k) now (setDomain d st)).1
  ∧ items (get Date_parse k now (setDomain (d +:+ "_" +:+ a) st)).2
    = items (get Date_parse (a +:+ "_" +:+ k) now (setDomain d st)).2.
Proof.
  assert (HF : getFullKey k (setDomain (d +:+ "_" +:+ a) st)
               = getFullKey (a +:+ "_" +:+ k) (setDomain d st)).
  { rewrite !getFullKey_setDomain. by rewrite !app_assoc. }
  assert (HE : getExpirationKey k (setDomain (d +:+ "_" +:+ a) st)
               = getExpirationKey (a +:+ "_" +:+ k) (setDomain d st)).
  { unfold getExpirationKey. by rewrite HF. }
  split; [done|]. split; [done|].
  unfold get, expired, hasExpirationDate, hasExpired, remove, removeItem.
  rewrite HF, HE, !getItem_setDomain.
  destruct (bool_decide _).
  - destruct (JSON.parse (item_text (getItem (getExpirationKey _ _) st))); [|done].
    destruct (match Date.of_value _ _ with Some t => t <? now | None => false end).
    + split; [done|]. cbn [fst snd]. by rewrite !items_with_items.
    + by destruct (JSON.parse _).
  - by destruct (JSON.parse _).
Qed.

(** X10. After [clearDomain(d)] every key whose full key contains [d]
    followed by an underscore, and is a key that [Object.keys] lists,
    reads [null], under whatever domain: so do the listed keys of the
    domain [d] and of every domain that ends with [d], and, without an
    argument, those of the current domain.  The expiration entry of such
    a key is removed whether the full key is listed or not. *)
Theorem clearDomain_then_get_returns_null dom st :
  let d := default (DOMAIN st) dom in
  (∀ d' key now,
     Text.includes (d +:+ "_") (d' +:+ "_" +:+ key) = true →
     enumerated (d' +:+ "_" +:+ key) = true →
     get Date_parse key now (setDomain d' (clearDomain dom st))
     = (Return VNull, setDomain d' (clearDomain dom st)))
  ∧ (∀ p key now,
       enumerated ((p +:+ d) +:+ "_" +:+ key) = true →
       get Date_parse key now (setDomain (p +:+ d) (clearDomain dom st))
       = (Return VNull, setDomain (p +:+ d) (clearDomain dom st)))
  ∧ (∀ key now,
       enumerated (getFullKey key st) = true →
       get Date_parse key now (clearDomain None st) = (Return VNull, clearDomain None st))
  ∧ (∀ d' key,
       Text.includes (d +:+ "_") (d' +:+ "_" +:+ key) = true →
       getItem (getExpirationKey key (setDomain d' st)) (clearDomain dom st) = None).
Proof.
  intros d.
  assert (HE : ∀ d' key,
            Text.includes (d +:+ "_") (d' +:+ "_" +:+ key) = true →
            getItem (getExpirationKey key (setDomain d' st)) (clearDomain dom st) = None).
  { intros d' key Hin. unfold getItem, getExpirationKey.
    rewrite clearDomain_lookup_expiration; fold d. rewrite getFullKey_setDomain.
    by rewrite (includes_app_r _ _ _ Hin). }
  assert (H : ∀ d' key now,
            Text.includes (d +:+ "_") (d' +:+ "_" +:+ key) = true →
            enumerated (d' +:+ "_" +:+ key) = true →
            get Date_parse key now (setDomain d' (clearDomain dom st))
            = (Return VNull, setDomain d' (clearDomain dom st))).
  { intros d' key now Hin Hen. apply get_absent; rewrite getItem_setDomain.
    - unfold getItem. rewrite clearDomain_lookup; fold d.
      by rewrite getFullKey_setDomain, Hin, Hen.
    - by apply HE. }
  assert (Hp : ∀ p key, Text.includes (d +:+ "_") ((p +:+ d) +:+ "_" +:+ key) = true).
  { intros p key. apply includes_spec. exists p, key. by rewrite !app_assoc. }
  split; [exact H|]. split; [|split; [|exact HE]].
  - intros p key now Hen. by apply H.
  - intros key now Hen.
    assert (Hd : DOMAIN (clearDomain None st) = DOMAIN st) by apply clearDomain_loop_frame.
    assert (Hin : Text.includes (default (DOMAIN st) None +:+ "_") (getFullKey key st)
                  = true).
    { apply includes_spec. exists EmptyString, key. rewrite app_nil_l.
      unfold getFullKey. simpl default. by rewrite !app_assoc. }
    apply get_absent; unfold getItem.
    + rewrite (getFullKey_DOMAIN key st) by done.
      by rewrite clearDomain_lookup, Hin, Hen.
    + rewrite (getExpirationKey_DOMAIN key st) by done. unfold getExpirationKey.
      rewrite clearDomain_lookup_expiration.
      by rewrite (includes_app_r _ _ _ Hin).
Qed.

End IsolationProperties.

(** X11. With an expiration format that is refused, [set] still stores the
    value: it does what [set] without a format does and logs one warning,
    so an expiration entry the key had before stays and goes on applying. *)
Theorem set_with_refused_format_stores_the_value key v e now st :
  key ≠ EmptyString →
  e ≠ EmptyString →
  ¬ valid_format e →
  set key v (Some e) now st
  = log (console_warn expiration_warning) (set key v None now st)
  ∧ getItem (getFullKey key st) (set key v (Some e) now st) = Some (stored_text v)
  ∧ getItem (getExpirationKey key st) (set key v (Some e) now st)
    = getItem (getExpirationKey key st) st.
Proof.
  intros Hkey He Hinv.
  assert (E : set key v (Some e) now st
              = log (console_warn expiration_warning) (set key v None now st)).
  { unfold set. rewrite !is_empty_false by done. by apply setExpiration_invalid. }
  split; [exact E|]. rewrite E. split.
  - change (getItem ?k (log ?m ?s)) with (getItem k s). by apply set_stores_text.
  - change (getItem ?k (log ?m ?s)) with (getItem k s).
    unfold set. rewrite is_empty_false by done.
    unfold getItem, setItem. rewrite items_with_items.
    apply lookup_insert_ne, getExpirationKey_neq.
Qed.

(** ** How long an expiration lasts *)

Section AmountFacts.
Import Text.













End AmountFacts.

Section ExpirationProperties.
Variable Date_parse : string → option Z.



End ExpirationProperties.

(** ** Writes over writes, and what [clearDomain] leaves *)

Section OverwriteProperties.
Variable Date_parse : string → option Z.

(** X14. The last write wins: [set] with a valid expiration format
    replaces the value and the expiration entry an earlier [set] of the
    same key left, so the storage and every later read are as if the
    earlier [set] had not been made. *)
Theorem set_overwrites_an_earlier_set key v1 e1 now1 v2 e2 now2 st :
  key ≠ EmptyString →
  valid_format e2 →
  items (set key v2 (Some e2) now2 (set key v1 e1 now1 st))
  = items (set key v2 (Some e2) now2 st)
  ∧ ∀ k now',
      (get Date_parse k now' (set key v2 (Some e2) now2 (set key v1 e1 now1 st))).1
      = (get Date_parse k now' (set key v2 (Some e2) now2 st)).1.
Proof.
  intros Hkey Hvalid.
  assert (He : Text.is_empty e2 = false).
  { destruct Hvalid as [Hlen _]. destruct e2; [simpl in Hlen; lia|done]. }
  set (st1 := set key v1 e1 now1 st).
  assert (Hd : DOMAIN st1 = DOMAIN st) by apply DOMAIN_set.
  assert (Hitems : items (set key v2 (Some e2) now2 st1)
                   = items (set key v2 (Some e2) now2 st)).
  { unfold set at 1 2. rewrite is_empty_false, He by done.
    destruct (setExpiration_valid key e2 now2
                (setItem (getFullKey key st1) (stored_text v2) st1) Hvalid)
      as (c & Hc & ->).
    destruct (setExpiration_valid key e2 now2
                (setItem (getFullKey key st) (stored_text v2) st) Hvalid)
      as (c' & Hc' & ->).
    assert (c' = c) as -> by congruence.
    unfold setItem. rewrite !items_with_items.
    rewrite (getExpirationKey_DOMAIN key st (with_items _ st1))
      by by rewrite DOMAIN_with_items.
    rewrite (getExpirationKey_DOMAIN key st (with_items _ st))
      by by rewrite DOMAIN_with_items.
    rewrite (getFullKey_DOMAIN key st st1) by done.
    apply map_eq. intros i. rewrite !lookup_insert.
    repeat case_decide; try done.
    apply (set_lookup_other key v1 e1 now1 st i); done. }
  split; [exact Hitems|]. intros k now'.
  apply get_agree.
  - by rewrite !DOMAIN_set.
  - unfold getItem. by rewrite Hitems.
  - unfold getItem. by rewrite Hitems.
Qed.

(** X15. [clearDomain(d)] changes what [get] returns for no key whose
    expiration key is free of [d] followed by an underscore. *)
Theorem clearDomain_leaves_other_keys dom key now st :
  Text.includes (default (DOMAIN st) dom +:+ "_") (getExpirationKey key st) = false →
  (get Date_parse key now (clearDomain dom st)).1 = (get Date_parse key now st).1
  ∧ getItem (getFullKey key st) (clearDomain dom st) = getItem (getFullKey key st) st
  ∧ getItem (getExpirationKey key st) (clearDomain dom st)
    = getItem (getExpirationKey key st) st.
Proof.
  intros HE.
  assert (HF : Text.includes (default (DOMAIN st) dom +:+ "_") (getFullKey key st) = false).
  { destruct (Text.includes _ (getFullKey key st)) eqn:E; [|done].
    unfold getExpirationKey in HE. by rewrite (includes_app_r _ _ _ E) in HE. }
  assert (H1 : getItem (getFullKey key st) (clearDomain dom st)
               = getItem (getFullKey key st) st).
  { unfold getItem. by rewrite clearDomain_lookup, HF. }
  assert (H2 : getItem (getExpirationKey key st) (clearDomain dom st)
               = getItem (getExpirationKey key st) st).
  { unfold getItem. by rewrite clearDomain_lookup, HE. }
  split; [|done]. symmetry. apply get_agree; [|done..].
  symmetry. apply clearDomain_loop_frame.
Qed.

(** X16. [clearDomain(d)] can remove the expiration entry of a key and
    leave its value: that happens to a key whose full key is free of [d]
    followed by an underscore and ends with [d].  The value then never
    expires. *)
Theorem clearDomain_can_drop_only_the_expiration d p key now st :
  getFullKey key st = p +:+ d →
  Text.includes (d +:+ "_") (getFullKey key st) = false →
  getItem (getFullKey key st) (clearDomain (Some d) st) = getItem (getFullKey key st) st
  ∧ getItem (getExpirationKey key st) (clearDomain (Some d) st) = None
  ∧ get Date_parse key now (clearDomain (Some d) st)
    = (Return match getItem (getFullKey key st) st with
              | Some raw => read_back raw
              | None => VNull
              end, clearDomain (Some d) st).
Proof.
  intros Hend HF.
  assert (Hd : DOMAIN (clearDomain (Some d) st) = DOMAIN st)
    by apply clearDomain_loop_frame.
  assert (H1 : getItem (getFullKey key st) (clearDomain (Some d) st)
               = getItem (getFullKey key st) st).
  { unfold getItem. rewrite clearDomain_lookup. simpl default. by rewrite HF. }
  assert (H2 : getItem (getExpirationKey key st) (clearDomain (Some d) st) = None).
  { unfold getItem, getExpirationKey. rewrite clearDomain_lookup_expiration.
    simpl default. rewrite (proj2 (includes_spec _ _)); [done|].
    exists p, (String.substring 1 (String.length EXPIRE) EXPIRE).
    rewrite Hend. by rewrite !app_assoc. }
  split; [done|]. split; [done|].
  rewrite get_not_expired.
  - by rewrite (getFullKey_DOMAIN key st) by done; rewrite H1.
  - apply expired_absent. by rewrite (getExpirationKey_DOMAIN key st) by done.
Qed.

End OverwriteProperties.

(** ** The further properties on sample data *)

(** X5 on the first read of a key. *)
Lemma hasExpired_without_entry_initial :
  getItem (getExpirationKey "k" initial) initial = None
  ∧ hasExpired Date_parse_none "k" sample_now initial = Return true
  ∧ expired Date_parse_none "k" sample_now initial = Return false.
Proof.
  assert (H1 : getItem (getExpirationKey "k" initial) initial = None) by reflexivity.
  destruct (hasExpired_without_entry_reads_the_epoch Date_parse_none "k" sample_now
              initial H1) as (R1 & _ & R3 & _).
  exact (conj H1 (conj R1 R3)).
Defined.

(** X7 on the keys [k] and [raw] of a state that holds both. *)
Lemma other_keys_read_the_same_one_second :
  "raw" ≠ "k"
  ∧ "raw" ≠ "k" +:+ EXPIRE
  ∧ "k" ≠ "raw" +:+ EXPIRE
  ∧ (get Date_parse_none "raw" sample_now
       (set "k" (VNum (Int 1)) (Some "3d") sample_now one_second)).1
    = (get Date_parse_none "raw" sample_now one_second).1
  ∧ (get Date_parse_none "raw" sample_now (remove "k" one_second)).1
    = (get Date_parse_none "raw" sample_now one_second).1.
Proof.
  assert (H1 : "raw" ≠ "k") by discriminate.
  assert (H2 : "raw" ≠ "k" +:+ EXPIRE) by (vm_compute; discriminate).
  assert (H3 : "k" ≠ "raw" +:+ EXPIRE) by (vm_compute; discriminate).
  exact (conj H1 (conj H2 (conj H3
           (other_keys_read_the_same Date_parse_none "k" "raw" (VNum (Int 1)) (Some "3d")
              sample_now sample_now one_second H1 H2 H3)))).
Defined.

(** X8 on the domains [books] and [movies]. *)
Lemma domains_without_underscore_books_movies :
  underscore_free "movies" = true
  ∧ underscore_free "books" = true
  ∧ "movies" ≠ "books"
  ∧ (get Date_parse_none "title" sample_now
       (setDomain "books"
          (set "title" (VNum (Int 0)) (Some "3d") sample_now
             (setDomain "movies" sample_books)))).1
    = (get Date_parse_none "title" sample_now (setDomain "books" sample_books)).1
  ∧ (get Date_parse_none "title" sample_now
       (setDomain "books" (remove "title" (setDomain "movies" sample_books)))).1
    = (get Date_parse_none "title" sample_now (setDomain "books" sample_books)).1.
Proof.
  assert (H1 : underscore_free "movies" = true) by reflexivity.
  assert (H2 : underscore_free "books" = true) by reflexivity.
  assert (H3 : "movies" ≠ "books") by discriminate.
  exact (conj H1 (conj H2 (conj H3
           (domains_without_underscore_are_apart Date_parse_none "movies" "books"
              "title" "title" (VNum (Int 0)) (Some "3d") sample_now sample_now
              sample_books H1 H2 H3)))).
Defined.

(** X11 on the format [5x]. *)
Lemma set_with_refused_format_5x :
  "k" ≠ EmptyString
  ∧ "5x" ≠ EmptyString
  ∧ ¬ valid_format "5x"
  ∧ set "k" (VStr "abc") (Some "5x") sample_now one_second
    = log (console_warn expiration_warning)
        (set "k" (VStr "abc") None sample_now one_second)
  ∧ getItem (getExpirationKey "k" one_second)
      (set "k" (VStr "abc") (Some "5x") sample_now one_second)
    = getItem (getExpirationKey "k" one_second) one_second.
Proof.
  assert (H1 : "k" ≠ EmptyString) by discriminate.
  assert (H2 : "5x" ≠ EmptyString) by discriminate.
  assert (H3 : ¬ valid_format "5x").
  { intros (_ & c & Hc & Hu & _). simpl in Hc. injection Hc as <-. discriminate Hu. }
  destruct (set_with_refused_format_stores_the_value "k" (VStr "abc") "5x" sample_now
              one_second H1 H2 H3) as (R1 & _ & R3).
  exact (conj H1 (conj H2 (conj H3 (conj R1 R3)))).
Defined.



(** X14 on two writes of one key. *)
Lemma set_overwrites_an_earlier_set_twice :
  "k" ≠ EmptyString
  ∧ valid_format "2h"
  ∧ items (set "k" (VNum (Int 2)) (Some "2h") sample_now
             (set "k" (VStr "a") (Some "1s") sample_now initial))
    = items (set "k" (VNum (Int 2)) (Some "2h") sample_now initial).
Proof.
  assert (H1 : "k" ≠ EmptyString) by discriminate.
  assert (H2 : valid_format "2h") by (apply digits_then_unit_valid; reflexivity).
  destruct (set_overwrites_an_earlier_set Date_parse_none "k" (VStr "a") (Some "1s")
              sample_now (VNum (Int 2)) "2h" sample_now initial H1 H2) as (R1 & _).
  exact (conj H1 (conj H2 R1)).
Defined.

(** X15 on a key of the default domain while [books] is cleared. *)
Lemma clearDomain_leaves_other_keys_two_domains :
  Text.includes (default (DOMAIN two_domains) (Some "books") +:+ "_")
    (getExpirationKey "t" two_domains) = false
  ∧ (get Date_parse_none "t" sample_now (clearDomain (Some "books") two_domains)).1
    = (get Date_parse_none "t" sample_now two_domains).1.
Proof.
  assert (H1 : Text.includes (default (DOMAIN two_domains) (Some "books") +:+ "_")
                 (getExpirationKey "t" two_domains) = false) by reflexivity.
  destruct (clearDomain_leaves_other_keys Date_parse_none (Some "books") "t" sample_now
              two_domains H1) as (R1 & _).
  exact (conj H1 R1).
Defined.

(** X16 on the key [title] of the domain [books] while the domain [title]
    is cleared. *)
Lemma clearDomain_can_drop_only_the_expiration_books :
  getFullKey "title" sample_books = "books_" +:+ "title"
  ∧ Text.includes ("title" +:+ "_") (getFullKey "title" sample_books) = false
  ∧ is_Some (getItem (getExpirationKey "title" sample_books) sample_books)
  ∧ getItem (getExpirationKey "title" sample_books)
      (clearDomain (Some "title") sample_books) = None
  ∧ getItem (getFullKey "title" sample_books) (clearDomain (Some "title") sample_books)
    = getItem (getFullKey "title" sample_books) sample_books.
Proof.
  assert (H1 : getFullKey "title" sample_books = "books_" +:+ "title") by reflexivity.
  assert (H2 : Text.includes ("title" +:+ "_") (getFullKey "title" sample_books) = false)
    by reflexivity.
  assert (H3 : is_Some (getItem (getExpirationKey "title" sample_books) sample_books))
    by (vm_compute; eauto).
  destruct (clearDomain_can_drop_only_the_expiration Date_parse_none "title" "books_"
              "title" sample_now sample_books H1 H2) as (R1 & R2 & _).
  exact (conj H1 (conj H2 (conj H3 (conj R2 R1)))).
Defined.
